(** * V-Math: 3D vectors and quaternions

    A shallow embedding of the [Vector] and [Quaternion] classes of the
    v-math library ([src/index.ts] and its compiled form, which also carries
    [Vector.distance_from_line]).

    The library computes on JavaScript numbers.  The embedding is written once
    over an interface of the numeric operations the source uses ([Number] for
    arithmetic, comparison and the algebraic [Math] functions, [Trig] for
    [Math.cos], [Math.sin], [Math.acos] and [Math.PI]) and is instantiated
    twice:

    - at IEEE 754 binary64 ([float]), the numbers the program computes on:
      the arithmetic part of the code runs inside Rocq exactly as it does
      in a JavaScript engine, and [Math.cos], [Math.sin], [Math.acos] and
      [Math.PI], which ECMAScript leaves to the engine, are any [Trig]
      instance, constrained only where a statement says so;
    - at the real numbers ([R]), the code read in exact arithmetic: the
      algebraic and trigonometric laws hold there, and overflow, rounding
      and [NaN] do not exist, so a theorem at this instance says what the
      formulas of the code compute, not what a binary64 run returns.

    A thrown [Error] is the [Throw] case of [result]. *)

From Stdlib Require Import Floats.
From Stdlib Require Import Reals Lra Psatz.
From Stdlib Require Import String Bool.
From Stdlib Require Import List.

(** ** Exceptions *)

Inductive result (A : Type) : Type :=
| Ok (value : A)
| Throw (message : string).

Arguments Ok {A} value.
Arguments Throw {A} message.

Definition bind {A B : Type} (r : result A) (k : A -> result B) : result B :=
  match r with
  | Ok a => k a
  | Throw m => Throw m
  end.

Notation "x <- r ;; k" := (bind r (fun x => k))
  (at level 61, r at next level, right associativity).

Definition throws {A : Type} (r : result A) : Prop :=
  exists m, r = Throw m.

(** ** The numeric interface *)

Declare Scope num_scope.
Delimit Scope num_scope with num.

(** What the source asks of a JavaScript number: the literals [0], [1] and
    [2], the arithmetic operators, [==], truthiness (for [z || 0]) and the
    algebraic [Math] functions.  [Math_pow2 b] is [Math.pow(b, 2)], the only
    exponent the source uses. *)
Class Number (num : Type) : Type := {
  n0 : num;
  n1 : num;
  n2 : num;
  num_add : num -> num -> num;
  num_sub : num -> num -> num;
  num_mul : num -> num -> num;
  num_div : num -> num -> num;
  num_neg : num -> num;
  loose_eq : num -> num -> bool;
  truthy : num -> bool;
  Math_sqrt : num -> num;
  Math_max : num -> num -> num;
  Math_min : num -> num -> num;
  Math_pow2 : num -> num
}.

Class Trig (num : Type) : Type := {
  Math_cos : num -> num;
  Math_sin : num -> num;
  Math_acos : num -> num;
  Math_PI : num
}.

Infix "+" := num_add : num_scope.
Infix "-" := num_sub : num_scope.
Infix "*" := num_mul : num_scope.
Infix "/" := num_div : num_scope.
Notation "- x" := (num_neg x) : num_scope.
Infix "==" := loose_eq (at level 70, no associativity) : num_scope.

Section Embedding.

Context {num : Type} {N : Number num}.
Local Open Scope num_scope.

(** [z || 0] on an optional number: [undefined], [0], [-0] and [NaN] all
    become [0]. *)
Definition or_zero (z : option num) : num :=
  match z with
  | Some z => if truthy z then z else n0
  | None => n0
  end.

(** *** Vector *)

Record VectorLike : Type := mkVectorLike {
  like_x : num;
  like_y : num;
  like_z : option num
}.

Record Vector : Type := mkVector {
  v_x : num;
  v_y : num;
  v_z : num
}.

Inductive VectorArg : Type :=
| VLike (v : VectorLike)
| VNum (x : num).

(** The overloaded constructor, with [None] for an argument left out. *)
Definition Vector_constructor (v : option VectorArg) (y z : option num)
  : result Vector :=
  match v with
  | None => Ok (mkVector n0 n0 n0)
  | Some (VNum x) =>
      match y with
      | None => Throw "Missing y value for Vector constructor."
      | Some y => Ok (mkVector x y (or_zero z))
      end
  | Some (VLike l) => Ok (mkVector (like_x l) (like_y l) (or_zero (like_z l)))
  end.

(** [new Vector(x, y, z)] and [new Vector({ x, y, z })] with all three
    components given: both store [z || 0], and neither can throw. *)
Definition Vector_new (x y z : num) : Vector :=
  mkVector x y (or_zero (Some z)).

Definition Vector_add (this v : Vector) : Vector :=
  Vector_new (v_x this + v_x v) (v_y this + v_y v) (v_z this + v_z v).

Definition Vector_neg (this : Vector) : Vector :=
  Vector_new (- v_x this) (- v_y this) (- v_z this).

Definition Vector_sub (this v : Vector) : Vector :=
  Vector_add this (Vector_neg v).

(** [mul(a: number | Vector)]: a number is broadcast to a vector first. *)
Definition Vector_mul (this : Vector) (a : num + Vector) : Vector :=
  let a := match a with
           | inl n => Vector_new n n n
           | inr w => w
           end in
  Vector_new (v_x this * v_x a) (v_y this * v_y a) (v_z this * v_z a).

Definition Vector_mag (this : Vector) : num :=
  Math_sqrt (v_x this * v_x this + v_y this * v_y this + v_z this * v_z this).

Definition Vector_norm (this : Vector) : Vector :=
  let mag := Vector_mag this in
  if mag == n0 then Vector_new n0 n0 n0
  else Vector_new (v_x this / mag) (v_y this / mag) (v_z this / mag).

Definition Vector_cross (this v : Vector) : Vector :=
  Vector_new
    (v_y this * v_z v - v_z this * v_y v)
    (- (v_x this * v_z v - v_z this * v_x v))
    (v_x this * v_y v - v_y this * v_x v).

Definition Vector_dot (this v : Vector) : num :=
  v_x this * v_x v + v_y this * v_y v + v_z this * v_z v.

(** *** Quaternion *)

Record Quaternion : Type := mkQuaternion {
  q_a : num;
  q_i : num;
  q_j : num;
  q_k : num
}.

Inductive QuaternionArg : Type :=
| QLike (q : Quaternion)
| QNum (a : num).

Definition Quaternion_constructor (qa : option QuaternionArg)
    (i j k : option num) : result Quaternion :=
  match qa with
  | None => Ok (mkQuaternion n1 n0 n0 n0)
  | Some (QNum a) =>
      match i, j, k with
      | Some i, Some j, Some k => Ok (mkQuaternion a i j k)
      | _, _, _ =>
          Throw "Missing i, j, or k values in Quaternion constructor..."
      end
  | Some (QLike q) => Ok (mkQuaternion (q_a q) (q_i q) (q_j q) (q_k q))
  end.

(** [new Quaternion(a, i, j, k)]: the fields as given. *)
Definition Quaternion_new (a i j k : num) : Quaternion :=
  mkQuaternion a i j k.

Definition Quaternion_add (this q : Quaternion) : Quaternion :=
  Quaternion_new (q_a this + q_a q) (q_i this + q_i q)
                 (q_j this + q_j q) (q_k this + q_k q).

Definition Quaternion_sub (this q : Quaternion) : Quaternion :=
  Quaternion_new (q_a this - q_a q) (q_i this - q_i q)
                 (q_j this - q_j q) (q_k this - q_k q).

Definition Quaternion_conjugate (this : Quaternion) : Quaternion :=
  Quaternion_new (q_a this) (- q_i this) (- q_j this) (- q_k this).

Definition Quaternion_mul (this : Quaternion) (a : num) : Quaternion :=
  Quaternion_new (q_a this * a) (q_i this * a) (q_j this * a) (q_k this * a).

Definition Quaternion_div (this : Quaternion) (a : num) : result Quaternion :=
  if a == n0 then Throw "Cannot divide by 0."
  else Ok (Quaternion_new (q_a this / a) (q_i this / a)
                          (q_j this / a) (q_k this / a)).

Definition Quaternion_mag (this : Quaternion) : num :=
  Math_sqrt (q_a this * q_a this + q_i this * q_i this
             + q_j this * q_j this + q_k this * q_k this).

Definition Quaternion_normalize (this : Quaternion) : result Quaternion :=
  Quaternion_div this (Quaternion_mag this).

Definition Quaternion_quaternion_multiply (this q : Quaternion) : Quaternion :=
  Quaternion_new
    (q_a this * q_a q - q_i this * q_i q - q_j this * q_j q - q_k this * q_k q)
    (q_a this * q_i q + q_i this * q_a q + q_j this * q_k q - q_k this * q_j q)
    (q_a this * q_j q - q_i this * q_k q + q_j this * q_a q + q_k this * q_i q)
    (q_a this * q_k q + q_i this * q_j q - q_j this * q_i q + q_k this * q_a q).

Definition Quaternion_q_mul (this q : Quaternion) : Quaternion :=
  Quaternion_quaternion_multiply this q.

(** [q.normalize().quaternion_multiply(this.normalize())]: the receiver
    [q.normalize()] is evaluated before the argument. *)
Definition Quaternion_quaternion_rotate (this q : Quaternion)
  : result Quaternion :=
  qn <- Quaternion_normalize q ;;
  tn <- Quaternion_normalize this ;;
  Ok (Quaternion_quaternion_multiply qn tn).

Definition Quaternion_q_rotate (this q : Quaternion) : result Quaternion :=
  Quaternion_quaternion_rotate this q.

Definition Quaternion_copy (this : Quaternion) : Quaternion :=
  Quaternion_new (q_a this) (q_i this) (q_j this) (q_k this).

(** *** Vector: rotation by a quaternion *)

Definition Vector_quaternion_rotate (this : Vector) (q : Quaternion)
  : result Vector :=
  q <- Quaternion_normalize q ;;
  let p := Quaternion_new n0 (v_x this) (v_y this) (v_z this) in
  let c := Quaternion_conjugate q in
  let p := Quaternion_q_mul (Quaternion_q_mul q p) c in
  Ok (Vector_new (q_i p) (q_j p) (q_k p)).

Definition Vector_q_rotate (this : Vector) (q : Quaternion) : result Vector :=
  Vector_quaternion_rotate this q.

(** *** Vector: distance from a line (compiled source only) *)

Definition Vector_distance_from_line (this a b : Vector) : num :=
  let dist_a := Vector_mag (Vector_sub this a) in
  let dist_b := Vector_mag (Vector_sub this b) in
  let dist := Vector_mag (Vector_sub a b) in
  Math_sqrt
    (Math_max n0
       (dist_a * dist_a
        - Math_pow2 ((dist_b * dist_b - dist_a * dist_a - dist * dist)
                     / (- n2 * dist)))).

(** *** The operations that need trigonometry *)

Context {T : Trig num}.

Definition Quaternion_from_axis_rotation (axis : Vector) (angle : num)
  : result Quaternion :=
  let a := Math_cos (angle / n2) in
  let s := Math_sin (angle / n2) in
  let axis := Vector_norm axis in
  let i := v_x axis * s in
  let j := v_y axis * s in
  let k := v_z axis * s in
  Quaternion_normalize (Quaternion_new a i j k).

Definition Quaternion_rotate_axis (this : Quaternion) (axis : Vector)
    (angle : num) : result Quaternion :=
  q <- Quaternion_from_axis_rotation axis angle ;;
  Quaternion_quaternion_rotate this q.

Definition Quaternion_rotate_x (this : Quaternion) (a : num) :=
  Quaternion_rotate_axis this (Vector_new n1 n0 n0) a.

Definition Quaternion_rotate_y (this : Quaternion) (a : num) :=
  Quaternion_rotate_axis this (Vector_new n0 n1 n0) a.

Definition Quaternion_rotate_z (this : Quaternion) (a : num) :=
  Quaternion_rotate_axis this (Vector_new n0 n0 n1) a.

Definition Vector_rotate_axis (this axis : Vector) (angle : num)
  : result Vector :=
  q <- Quaternion_from_axis_rotation axis angle ;;
  Vector_q_rotate this q.

Definition Vector_rotate_x (this : Vector) (xAngle : num) :=
  Vector_rotate_axis this (Vector_new n1 n0 n0) xAngle.

Definition Vector_rotate_y (this : Vector) (yAngle : num) :=
  Vector_rotate_axis this (Vector_new n0 n1 n0) yAngle.

Definition Vector_rotate_z (this : Vector) (zAngle : num) :=
  Vector_rotate_axis this (Vector_new n0 n0 n1) zAngle.

Definition Vector_angle_between (this v : Vector) : num :=
  let denominator := Vector_mag this * Vector_mag v in
  if denominator == n0 then n0
  else Math_acos (Math_min (Math_max (Vector_dot this v / denominator) (- n1)) n1).

Definition Vector_project (this v : Vector) : Vector :=
  let theta := Vector_angle_between this v in
  Vector_mul (Vector_norm v) (inl (Math_cos theta * Vector_mag this)).

Definition Vector_planar_project (this origin normal : Vector) : Vector :=
  let diff := Vector_sub origin this in
  Vector_add this (Vector_project diff normal).

Definition Vector_project_2d (this origin normal y_axis : Vector)
  : result Vector :=
  let proj := Vector_sub (Vector_planar_project this origin normal) origin in
  let theta := Vector_angle_between proj y_axis in
  rotated <- Vector_rotate_axis y_axis normal (Math_PI / n2) ;;
  let theta2 := Vector_angle_between proj rotated in
  let mag := Vector_mag proj in
  Ok (Vector_new (Math_cos theta2 * mag) (Math_cos theta * mag) n0).

End Embedding.

Arguments Vector num : clear implicits.
Arguments VectorLike num : clear implicits.
Arguments VectorArg num : clear implicits.
Arguments Quaternion num : clear implicits.
Arguments QuaternionArg num : clear implicits.

(** ** Matrices

    A matrix is a nested array, [Array<Array<number>>].  Reading past the
    end of an array gives [undefined]: indexing [undefined] again is a
    [TypeError] (whose message depends on the engine, so it is modelled
    by its name), and [undefined] in arithmetic is [NaN]. *)

Class NaNValue (num : Type) : Type := {
  num_NaN : num
}.

Section Matrices.

Context {num : Type} {N : Number num}.
Local Open Scope num_scope.

Definition Quaternion_get_rotation_matrix (this : Quaternion num)
  : list (list num) :=
  let a := q_a this in
  let i := q_i this in
  let j := q_j this in
  let k := q_k this in
  let M :=
    ((a * a + i * i - j * j - k * k)
       :: (n2 * (i * j - a * k))
       :: (n2 * (a * j + i * k)) :: nil)
    :: ((n2 * (i * j + a * k))
          :: (a * a - i * i + j * j - k * k)
          :: (n2 * (- a * i + j * k)) :: nil)
    :: ((n2 * (- a * j + i * k))
          :: (n2 * (a * i + j * k))
          :: (a * a - i * i - j * j + k * k) :: nil)
    :: nil in
  M.

Context {U : NaNValue num}.

(** [M[r]], then indexed: a missing row makes the next index throw. *)
Definition matrix_row (M : list (list num)) (r : nat) : result (list num) :=
  match nth_error M r with
  | Some row => Ok row
  | None => Throw "TypeError"
  end.

(** A possibly [undefined] entry used as an operand of [*]. *)
Definition to_number (e : option num) : num :=
  match e with
  | Some n => n
  | None => num_NaN
  end.

(** [this.x * M[r][0] + this.y * M[r][1] + this.z * M[r][2] + (M[r][3] || 0)]
    for the row [M[r]]. *)
Definition transform_row (this : Vector num) (row : list num) : num :=
  v_x this * to_number (nth_error row 0)
  + v_y this * to_number (nth_error row 1)
  + v_z this * to_number (nth_error row 2)
  + or_zero (nth_error row 3).

Definition Vector_transform (this : Vector num) (M : list (list num))
  : result (Vector num) :=
  r0 <- matrix_row M 0 ;;
  let x := transform_row this r0 in
  r1 <- matrix_row M 1 ;;
  let y := transform_row this r1 in
  r2 <- matrix_row M 2 ;;
  let z := transform_row this r2 in
  Ok (Vector_new x y z).

End Matrices.

(** ** The two instances *)

(** *** Real numbers: the code in exact arithmetic

    [==] is equality of reals, [Math.pow(b, 2)] is the square, and the
    [Math] functions are those of the Standard Library.  On the paths the
    theorems below follow, every divisor is shown to be nonzero, every
    argument of [sqrt] is a sum of squares or clamped at [0], and every
    argument of [acos] is clamped to [[-1, 1]].  This instance is not a
    model of binary64: what it proves is stated as holding in exact
    arithmetic, and the behaviour of the program on binary64 numbers is
    stated at the instance below. *)

Definition R_loose_eq (x y : R) : bool :=
  if Req_dec_T x y then true else false.

#[export] Instance R_Number : Number R := {|
  n0 := 0%R;
  n1 := 1%R;
  n2 := 2%R;
  num_add := Rplus;
  num_sub := Rminus;
  num_mul := Rmult;
  num_div := Rdiv;
  num_neg := Ropp;
  loose_eq := R_loose_eq;
  truthy := fun x => negb (R_loose_eq x 0%R);
  Math_sqrt := sqrt;
  Math_max := Rmax;
  Math_min := Rmin;
  Math_pow2 := fun b => (b ^ 2)%R
|}.

#[export] Instance R_Trig : Trig R := {|
  Math_cos := cos;
  Math_sin := sin;
  Math_acos := acos;
  Math_PI := PI
|}.

(** *** IEEE 754 binary64

    [+], [-], [*], [/] and [Math.sqrt] are the correctly rounded binary64
    operations; [==] is IEEE equality ([-0 == 0], [NaN] equal to nothing);
    a number is falsy when it is a zero or [NaN]; [Math.max] and [Math.min]
    return [NaN] when an argument is [NaN] and order [-0] below [+0];
    [Math.pow(b, 2)] is taken to be the rounded product [b * b]. *)

Definition float_truthy (x : float) : bool :=
  negb (PrimFloat.is_zero x || PrimFloat.is_nan x).

Definition float_max (x y : float) : float :=
  if PrimFloat.is_nan x || PrimFloat.is_nan y then PrimFloat.nan
  else if PrimFloat.ltb x y then y
  else if PrimFloat.ltb y x then x
  else if PrimFloat.get_sign x then y else x.

Definition float_min (x y : float) : float :=
  if PrimFloat.is_nan x || PrimFloat.is_nan y then PrimFloat.nan
  else if PrimFloat.ltb x y then x
  else if PrimFloat.ltb y x then y
  else if PrimFloat.get_sign x then x else y.

#[export] Instance float_Number : Number float := {|
  n0 := 0%float;
  n1 := 1%float;
  n2 := 2%float;
  num_add := PrimFloat.add;
  num_sub := PrimFloat.sub;
  num_mul := PrimFloat.mul;
  num_div := PrimFloat.div;
  num_neg := PrimFloat.opp;
  loose_eq := PrimFloat.eqb;
  truthy := float_truthy;
  Math_sqrt := PrimFloat.sqrt;
  Math_max := float_max;
  Math_min := float_min;
  Math_pow2 := fun b => PrimFloat.mul b b
|}.

#[export] Instance float_NaNValue : NaNValue float := {|
  num_NaN := PrimFloat.nan
|}.


(** ** Reference notions the specification names *)

Local Open Scope R_scope.

(** The Hamilton product of [(a1, i1, j1, k1)] and [(a2, i2, j2, k2)], by
    the four formulas of the specification. *)
Definition hamilton_product {num : Type} {N : Number num}
    (a1 i1 j1 k1 a2 i2 j2 k2 : num) : Quaternion num :=
  mkQuaternion
    (a1 * a2 - i1 * i2 - j1 * j2 - k1 * k2)%num
    (a1 * i2 + i1 * a2 + j1 * k2 - k1 * j2)%num
    (a1 * j2 - i1 * k2 + j1 * a2 + k1 * i2)%num
    (a1 * k2 + i1 * j2 - j1 * i2 + k1 * a2)%num.

(** Euclidean distance between two points, the point of the line through
    [a] and [b] at parameter [t], and the squared norm of a quaternion. *)
Definition distance (p q : Vector R) : R :=
  sqrt ((v_x p - v_x q) * (v_x p - v_x q)
        + (v_y p - v_y q) * (v_y p - v_y q)
        + (v_z p - v_z q) * (v_z p - v_z q)).

Definition line_point (a b : Vector R) (t : R) : Vector R :=
  mkVector (v_x a + t * (v_x b - v_x a))
           (v_y a + t * (v_y b - v_y a))
           (v_z a + t * (v_z b - v_z a)).




Definition sqnorm (q : Quaternion R) : R :=
  q_a q * q_a q + q_i q * q_i q + q_j q * q_j q + q_k q * q_k q.

Definition zero_vector : Vector R := Vector_new 0 0 0.

(** The quaternion [from_axis_rotation] builds before its final
    [normalize()]. *)
Definition axis_rotation_raw (axis : Vector R) (angle : R) : Quaternion R :=
  mkQuaternion (cos (angle / 2))
               (v_x (Vector_norm axis) * sin (angle / 2))
               (v_y (Vector_norm axis) * sin (angle / 2))
               (v_z (Vector_norm axis) * sin (angle / 2)).

(** The vector part of [(q * (0, v)) * conjugate(q)]: what
    [Vector.quaternion_rotate] returns once [q] is normalized. *)
Definition sandwich (q : Quaternion R) (v : Vector R) : Vector R :=
  let s := Quaternion_quaternion_multiply
             (Quaternion_quaternion_multiply q
                (mkQuaternion 0 (v_x v) (v_y v) (v_z v)))
             (Quaternion_conjugate q) in
  mkVector (q_i s) (q_j s) (q_k s).

(** The identity quaternion, [new Quaternion()]. *)
Definition identity_quaternion : Quaternion R := mkQuaternion 1 0 0 0.

(** *** Reference notions on every kind of number

    Written from the words of the specification: the dot product, the
    Euclidean norm, the componentwise quotient, the sandwich product and
    the clamped ratio use none of the methods of the code.  Only
    [line_radicand] takes the differences of points from the code
    ([p.sub(a)]), since on a number type without laws [x + (-a)] is not
    known to be [x - a]. *)

Definition dot_product {num : Type} {N : Number num} (u v : Vector num) : num :=
  (v_x u * v_x v + v_y u * v_y v + v_z u * v_z v)%num.

Definition euclidean_norm {num : Type} {N : Number num} (v : Vector num)
  : num :=
  Math_sqrt (v_x v * v_x v + v_y v * v_y v + v_z v * v_z v)%num.

Definition quaternion_norm {num : Type} {N : Number num} (q : Quaternion num)
  : num :=
  Math_sqrt (q_a q * q_a q + q_i q * q_i q + q_j q * q_j q + q_k q * q_k q)%num.

(** [q] divided componentwise by the number [m]. *)
Definition quaternion_quotient {num : Type} {N : Number num}
    (q : Quaternion num) (m : num) : Quaternion num :=
  mkQuaternion (q_a q / m)%num (q_i q / m)%num (q_j q / m)%num (q_k q / m)%num.

(** The sandwich product [(q * (0, v.x, v.y, v.z)) * conjugate(q)], the
    left product first, the conjugate written out as [(a, -i, -j, -k)]. *)
Definition sandwich_product {num : Type} {N : Number num}
    (q : Quaternion num) (v : Vector num) : Quaternion num :=
  let l := hamilton_product (q_a q) (q_i q) (q_j q) (q_k q)
                            n0 (v_x v) (v_y v) (v_z v) in
  hamilton_product (q_a l) (q_i l) (q_j l) (q_k l)
                   (q_a q) (- q_i q)%num (- q_j q)%num (- q_k q)%num.

(** The ratio [dot(u, v) / (|u| * |v|)] and its clamp to [[-1, 1]]. *)
Definition cosine_ratio {num : Type} {N : Number num} (u v : Vector num) : num :=
  (dot_product u v / (euclidean_norm u * euclidean_norm v))%num.

Definition clamped_ratio {num : Type} {N : Number num} (u v : Vector num)
  : num :=
  Math_min (Math_max (cosine_ratio u v) (- n1)%num) n1.


(** *** Binary64 inputs and [Math] libraries

    The finite doubles [1e200], [1.498e308] and [3e7], written exactly. *)
Definition float_1e200 : float := 0x1.4e718d7d7625ap+664%float.
Definition float_1498e305 : float := 0x1.aaa50202a6b83p+1023%float.

(** What ECMAScript fixes of the trigonometric functions: [cos(+0) = 1],
    [sin(+0) = +0] and [acos(NaN) = NaN]. *)
Definition ecma_library (T : Trig float) : Prop :=
  Math_cos 0%float = 1%float
  /\ Math_sin 0%float = 0%float
  /\ Math_acos PrimFloat.nan = PrimFloat.nan.


(** A library with the usual values at a quarter turn: [Math.PI] is the
    double nearest to pi, and at [Math.PI / 4] the cosine is
    [0.7071067811865476] and the sine [0.7071067811865475], the cosine
    even and the sine odd. *)
Definition quarter_turn_library (T : Trig float) : Prop :=
  Math_PI = 0x1.921fb54442d18p+1%float
  /\ Math_cos 0x1.921fb54442d18p-1%float = 0x1.6a09e667f3bcdp-1%float
  /\ Math_sin 0x1.921fb54442d18p-1%float = 0x1.6a09e667f3bccp-1%float
  /\ Math_cos (-0x1.921fb54442d18p-1)%float = 0x1.6a09e667f3bcdp-1%float
  /\ Math_sin (-0x1.921fb54442d18p-1)%float = (-0x1.6a09e667f3bccp-1)%float.


(** A library with the usual values at a half turn: at [Math.PI / 2] the
    cosine is [6.123233995736766e-17], not [0], and the sine is [1]. *)
Definition half_turn_library (T : Trig float) : Prop :=
  Math_PI = 0x1.921fb54442d18p+1%float
  /\ Math_cos 0x1.921fb54442d18p+0%float = 0x1.1a62633145c07p-54%float
  /\ Math_sin 0x1.921fb54442d18p+0%float = 1%float.

(** A [Math] library given by a table: the values above at the zeros, at
    a quarter turn and at a half turn, [acos(1) = 0], and [NaN] at every
    other argument.  It shows that the assumptions on a library can be
    met together, and serves to run the code on these arguments. *)
Definition table_cos (x : float) : float :=
  if PrimFloat.is_zero x then 1%float
  else if PrimFloat.eqb (PrimFloat.abs x) 0x1.921fb54442d18p-1%float
       then 0x1.6a09e667f3bcdp-1%float
  else if PrimFloat.eqb (PrimFloat.abs x) 0x1.921fb54442d18p+0%float
       then 0x1.1a62633145c07p-54%float
  else PrimFloat.nan.

Definition table_sin (x : float) : float :=
  if PrimFloat.is_zero x then x
  else if PrimFloat.eqb x 0x1.921fb54442d18p-1%float
       then 0x1.6a09e667f3bccp-1%float
  else if PrimFloat.eqb x (-0x1.921fb54442d18p-1)%float
       then (-0x1.6a09e667f3bccp-1)%float
  else if PrimFloat.eqb x 0x1.921fb54442d18p+0%float then 1%float
  else if PrimFloat.eqb x (-0x1.921fb54442d18p+0)%float then (-1)%float
  else PrimFloat.nan.

Definition table_acos (x : float) : float :=
  if PrimFloat.eqb x 1%float then 0%float else PrimFloat.nan.

Definition table_library : Trig float := {|
  Math_cos := table_cos;
  Math_sin := table_sin;
  Math_acos := table_acos;
  Math_PI := 0x1.921fb54442d18p+1%float
|}.

(** ** Facts about the real instance *)

Lemma R_loose_eq_true (x y : R) : R_loose_eq x y = true <-> x = y.
Proof.
  unfold R_loose_eq. destruct (Req_dec_T x y); split; intro; congruence.
Qed.

Lemma R_loose_eq_false (x y : R) : R_loose_eq x y = false <-> x <> y.
Proof.
  unfold R_loose_eq. destruct (Req_dec_T x y); split; intro; congruence.
Qed.

Lemma R_loose_eq_refl (x : R) : R_loose_eq x x = true.
Proof. now apply R_loose_eq_true. Qed.

(** [z || 0] changes no real number. *)
Lemma or_zero_R (z : R) : or_zero (Some z) = z.
Proof.
  unfold or_zero; cbn.
  destruct (R_loose_eq z 0) eqn:E; cbn; [|reflexivity].
  apply R_loose_eq_true in E. now subst.
Qed.

Lemma Vector_new_R (x y z : R) : Vector_new x y z = mkVector x y z.
Proof. unfold Vector_new. now rewrite or_zero_R. Qed.

Lemma zero_vector_R : zero_vector = mkVector 0 0 0.
Proof. apply Vector_new_R. Qed.

Lemma sum3_squares_nonneg (x y z : R) : 0 <= x * x + y * y + z * z.
Proof. nra. Qed.

Lemma sum4_squares_nonneg (a i j k : R) : 0 <= a * a + i * i + j * j + k * k.
Proof. nra. Qed.

Lemma Vector_mag_R (v : Vector R) :
  Vector_mag v = sqrt (v_x v * v_x v + v_y v * v_y v + v_z v * v_z v).
Proof. reflexivity. Qed.

Lemma Vector_mag_nonneg (v : Vector R) : 0 <= Vector_mag v.
Proof. rewrite Vector_mag_R. apply sqrt_pos. Qed.

Lemma Vector_mag_sqr (v : Vector R) :
  Vector_mag v * Vector_mag v
  = v_x v * v_x v + v_y v * v_y v + v_z v * v_z v.
Proof. rewrite Vector_mag_R. apply sqrt_sqrt, sum3_squares_nonneg. Qed.

Lemma Vector_mag_zero_iff (v : Vector R) :
  Vector_mag v = 0 <-> v = mkVector 0 0 0.
Proof.
  split.
  - intro H. pose proof (Vector_mag_sqr v) as S. rewrite H in S.
    destruct v as [x y z]; cbn in *.
    assert (x = 0) by nra. assert (y = 0) by nra. assert (z = 0) by nra.
    now subst.
  - intros ->. rewrite Vector_mag_R; cbn.
    replace (0 * 0 + 0 * 0 + 0 * 0) with 0 by ring. apply sqrt_0.
Qed.

Lemma Quaternion_mag_R (q : Quaternion R) : Quaternion_mag q = sqrt (sqnorm q).
Proof. reflexivity. Qed.

Lemma sqnorm_nonneg (q : Quaternion R) : 0 <= sqnorm q.
Proof. apply sum4_squares_nonneg. Qed.

Lemma Quaternion_mag_sqr (q : Quaternion R) :
  Quaternion_mag q * Quaternion_mag q = sqnorm q.
Proof. rewrite Quaternion_mag_R. apply sqrt_sqrt, sqnorm_nonneg. Qed.

Lemma Quaternion_mag_nonneg (q : Quaternion R) : 0 <= Quaternion_mag q.
Proof. rewrite Quaternion_mag_R. apply sqrt_pos. Qed.

Lemma Quaternion_mag_unit (q : Quaternion R) :
  sqnorm q = 1 -> Quaternion_mag q = 1.
Proof. intro H. rewrite Quaternion_mag_R, H. apply sqrt_1. Qed.

Lemma Quaternion_mag_nonzero (q : Quaternion R) :
  0 < sqnorm q -> Quaternion_mag q <> 0.
Proof.
  intros H E. pose proof (Quaternion_mag_sqr q) as S. rewrite E in S. lra.
Qed.

(** ** Exceptions of [Quaternion.div] and [Quaternion.normalize] *)

Lemma Quaternion_div_throws {num : Type} {N : Number num}
    (q : Quaternion num) (a : num) :
  throws (Quaternion_div q a) <-> (a == n0)%num = true.
Proof.
  unfold Quaternion_div, throws.
  destruct (a == n0)%num; split; intro H; try reflexivity; try discriminate.
  - now eexists.
  - destruct H as [m H]. discriminate.
Qed.

Lemma Quaternion_div_ok {num : Type} {N : Number num}
    (q : Quaternion num) (a : num) :
  (a == n0)%num = false ->
  Quaternion_div q a
  = Ok (mkQuaternion (q_a q / a)%num (q_i q / a)%num
                     (q_j q / a)%num (q_k q / a)%num).
Proof. unfold Quaternion_div. now intros ->. Qed.

Lemma Quaternion_normalize_R (q : Quaternion R) :
  Quaternion_mag q <> 0 ->
  Quaternion_normalize q
  = Ok (mkQuaternion (q_a q / Quaternion_mag q) (q_i q / Quaternion_mag q)
                     (q_j q / Quaternion_mag q) (q_k q / Quaternion_mag q)).
Proof.
  intro H. unfold Quaternion_normalize.
  rewrite Quaternion_div_ok by now apply R_loose_eq_false.
  reflexivity.
Qed.

(** ** The constructors *)

Lemma Vector_constructor_numbers {num : Type} {N : Number num} (x y z : num) :
  Vector_constructor (Some (VNum x)) (Some y) (Some z)
  = Ok (Vector_new x y z).
Proof. reflexivity. Qed.

Lemma Vector_constructor_record {num : Type} {N : Number num} (x y z : num) :
  Vector_constructor (Some (VLike (mkVectorLike x y (Some z)))) None None
  = Ok (Vector_new x y z).
Proof. reflexivity. Qed.

Lemma Quaternion_constructor_numbers {num : Type} {N : Number num}
    (a i j k : num) :
  Quaternion_constructor (Some (QNum a)) (Some i) (Some j) (Some k)
  = Ok (Quaternion_new a i j k).
Proof. reflexivity. Qed.

(** ** [Quaternion.quaternion_multiply] *)

(** Hamilton's relations among the units [i], [j], [k], over the reals:
    the product is not commutative. *)
Lemma quaternion_multiply_units :
  let i := mkQuaternion 0 1 0 0 in
  let j := mkQuaternion 0 0 1 0 in
  let k := mkQuaternion 0 0 0 1 in
  let minus_one := mkQuaternion (-1) 0 0 0 in
  Quaternion_quaternion_multiply i i = minus_one
  /\ Quaternion_quaternion_multiply j j = minus_one
  /\ Quaternion_quaternion_multiply k k = minus_one
  /\ Quaternion_quaternion_multiply i j = k
  /\ Quaternion_quaternion_multiply j i = Quaternion_conjugate k
  /\ Quaternion_quaternion_multiply (Quaternion_quaternion_multiply i j) k
     = minus_one.
Proof.
  cbv zeta.
  unfold Quaternion_quaternion_multiply, Quaternion_conjugate, Quaternion_new.
  cbn. repeat split; f_equal; ring.
Qed.

(** C1: [quaternion_multiply] is the Hamilton product: on every kind of
    number its four components are the four formulas of the specification,
    and [(1,0,0,0) * (0,1,0,0)] is [(0,1,0,0)], over the reals and in
    binary64 alike. *)
Theorem quaternion_multiply_is_hamilton_product :
  (forall (num : Type) (N : Number num) (p q : Quaternion num),
      Quaternion_quaternion_multiply p q
      = hamilton_product (q_a p) (q_i p) (q_j p) (q_k p)
                         (q_a q) (q_i q) (q_j q) (q_k q))
  /\ Quaternion_quaternion_multiply
       (Quaternion_new 1 0 0 0) (Quaternion_new 0 1 0 0)
     = Quaternion_new 0 1 0 0
  /\ (Quaternion_quaternion_multiply
        (Quaternion_new 1 0 0 0) (Quaternion_new 0 1 0 0)
      = Quaternion_new 0 1 0 0)%float.
Proof.
  split; [|split].
  - intros num N [a1 i1 j1 k1] [a2 i2 j2 k2]. reflexivity.
  - unfold Quaternion_quaternion_multiply, Quaternion_new; cbn.
    f_equal; ring.
  - vm_compute. reflexivity.
Qed.

(** C5: [div(a)] throws exactly when [a == 0] and [normalize()] exactly
    when the magnitude [== 0]; otherwise each returns the componentwise
    quotient.  Over the reals [==] is equality, and the zero quaternion's
    [normalize()] throws "Cannot divide by 0." over the reals and in
    binary64. *)
Theorem quaternion_div_normalize_throw_iff_zero :
  (forall (num : Type) (N : Number num) (q : Quaternion num) (a : num),
      (throws (Quaternion_div q a) <-> (a == n0)%num = true)
      /\ (throws (Quaternion_normalize q)
          <-> (Quaternion_mag q == n0)%num = true)
      /\ ((a == n0)%num = false ->
          Quaternion_div q a
          = Ok (mkQuaternion (q_a q / a)%num (q_i q / a)%num
                             (q_j q / a)%num (q_k q / a)%num))
      /\ ((Quaternion_mag q == n0)%num = false ->
          Quaternion_normalize q
          = Ok (mkQuaternion (q_a q / Quaternion_mag q)%num
                             (q_i q / Quaternion_mag q)%num
                             (q_j q / Quaternion_mag q)%num
                             (q_k q / Quaternion_mag q)%num)))
  /\ (forall (q : Quaternion R) (a : R),
         (throws (Quaternion_div q a) <-> a = 0)
         /\ (throws (Quaternion_normalize q) <-> Quaternion_mag q = 0))
  /\ Quaternion_normalize (Quaternion_new 0 0 0 0)
     = Throw "Cannot divide by 0."
  /\ Quaternion_normalize (Quaternion_new 0 0 0 0)%float
     = Throw "Cannot divide by 0.".
Proof.
  split; [|split; [|split]].
  - intros num N q a. repeat split.
    + apply Quaternion_div_throws.
    + apply Quaternion_div_throws.
    + apply Quaternion_div_throws.
    + apply Quaternion_div_throws.
    + apply Quaternion_div_ok.
    + apply Quaternion_div_ok.
  - intros q a. split.
    + rewrite Quaternion_div_throws. apply R_loose_eq_true.
    + unfold Quaternion_normalize. rewrite Quaternion_div_throws.
      apply R_loose_eq_true.
  - unfold Quaternion_normalize, Quaternion_div.
    replace (Quaternion_mag (Quaternion_new 0 0 0 0)) with 0.
    + cbn. now rewrite R_loose_eq_refl.
    + rewrite Quaternion_mag_R. unfold sqnorm; cbn.
      replace (0 * 0 + 0 * 0 + 0 * 0 + 0 * 0) with 0 by ring.
      symmetry. apply sqrt_0.
  - vm_compute. reflexivity.
Qed.

Lemma quaternion_div_normalize_throw_iff_zero_witness :
  (Quaternion_div (mkQuaternion 2 4 6 8) 2 = Ok (mkQuaternion 1 2 3 4)
   /\ Quaternion_normalize (mkQuaternion 2 0 0 0)
      = Ok (mkQuaternion 1 0 0 0))%float.
Proof.
  split.
  - exact (proj1 (proj2 (proj2
             (proj1 quaternion_div_normalize_throw_iff_zero float _
                (mkQuaternion 2 4 6 8) 2)))%float eq_refl).
  - exact (proj2 (proj2 (proj2
             (proj1 quaternion_div_normalize_throw_iff_zero float _
                (mkQuaternion 2 0 0 0) 2)))%float eq_refl).
Defined.

(** ** [Vector.norm] *)

Lemma Vector_norm_zero_mag {num : Type} {N : Number num} (v : Vector num) :
  (Vector_mag v == n0)%num = true -> Vector_norm v = Vector_new n0 n0 n0.
Proof. unfold Vector_norm. now intros ->. Qed.

Lemma Vector_norm_R_zero (v : Vector R) :
  Vector_mag v = 0 -> Vector_norm v = mkVector 0 0 0.
Proof.
  intro H. rewrite Vector_norm_zero_mag by now apply R_loose_eq_true.
  apply Vector_new_R.
Qed.

Lemma Vector_norm_R_nonzero (v : Vector R) :
  Vector_mag v <> 0 ->
  Vector_norm v
  = mkVector (v_x v / Vector_mag v) (v_y v / Vector_mag v)
             (v_z v / Vector_mag v).
Proof.
  intro H. unfold Vector_norm.
  replace (Vector_mag v == n0)%num with false
    by (symmetry; now apply R_loose_eq_false).
  apply Vector_new_R.
Qed.

Lemma Vector_mul_scalar_R (v : Vector R) (c : R) :
  Vector_mul v (inl c) = mkVector (v_x v * c) (v_y v * c) (v_z v * c).
Proof. unfold Vector_mul. now rewrite !Vector_new_R. Qed.

(** The components of [norm()] of a nonzero vector have squares summing
    to one. *)
Lemma Vector_norm_unit (v : Vector R) :
  Vector_mag v <> 0 ->
  v_x (Vector_norm v) * v_x (Vector_norm v)
  + v_y (Vector_norm v) * v_y (Vector_norm v)
  + v_z (Vector_norm v) * v_z (Vector_norm v) = 1.
Proof.
  intro H. rewrite Vector_norm_R_nonzero by assumption. cbn [v_x v_y v_z].
  pose proof (Vector_mag_sqr v) as S.
  set (m := Vector_mag v) in *.
  transitivity ((v_x v * v_x v + v_y v * v_y v + v_z v * v_z v) / (m * m)).
  - field. assumption.
  - rewrite <- S. field. assumption.
Qed.

Lemma mag_3_4_0 : Vector_mag (mkVector 3 4 0) = 5.
Proof.
  rewrite Vector_mag_R; cbn.
  replace (3 * 3 + 4 * 4 + 0 * 0) with (5 * 5) by ring.
  apply sqrt_square. lra.
Qed.

(** ** [Vector.quaternion_rotate] *)

(** On every kind of number: the only exception is that of [q.normalize()],
    and the result is built from the sandwich product. *)
Lemma Vector_quaternion_rotate_unfold {num : Type} {N : Number num}
    (v : Vector num) (q : Quaternion num) :
  Vector_quaternion_rotate v q
  = match Quaternion_normalize q with
    | Ok q_n =>
        let p := Quaternion_new n0 (v_x v) (v_y v) (v_z v) in
        let s := Quaternion_quaternion_multiply
                   (Quaternion_quaternion_multiply q_n p)
                   (Quaternion_conjugate q_n) in
        Ok (Vector_new (q_i s) (q_j s) (q_k s))
    | Throw m => Throw m
    end.
Proof.
  unfold Vector_quaternion_rotate, bind.
  destruct (Quaternion_normalize q); reflexivity.
Qed.

(** ** Unit quaternions and rotation over the reals *)

Lemma Quaternion_normalize_unit (q : Quaternion R) :
  sqnorm q = 1 -> Quaternion_normalize q = Ok q.
Proof.
  intro H. pose proof (Quaternion_mag_unit q H) as M.
  rewrite Quaternion_normalize_R by (rewrite M; lra).
  rewrite M. destruct q as [a i j k]; cbn [q_a q_i q_j q_k].
  do 2 f_equal; field.
Qed.

Lemma Quaternion_normalize_sqnorm (q : Quaternion R) :
  Quaternion_mag q <> 0 ->
  exists q_n, Quaternion_normalize q = Ok q_n /\ sqnorm q_n = 1.
Proof.
  intro H. eexists. split; [now apply Quaternion_normalize_R|].
  unfold sqnorm at 1; cbn [q_a q_i q_j q_k].
  pose proof (Quaternion_mag_sqr q) as S. unfold sqnorm in S.
  set (m := Quaternion_mag q) in *.
  transitivity ((q_a q * q_a q + q_i q * q_i q + q_j q * q_j q
                 + q_k q * q_k q) / (m * m)).
  - field. assumption.
  - rewrite <- S. field. assumption.
Qed.

(** The result of [v.quaternion_rotate(q)] for a unit [q], component by
    component. *)
Lemma Vector_quaternion_rotate_unit (v : Vector R) (q : Quaternion R) :
  sqnorm q = 1 ->
  Vector_quaternion_rotate v q
  = let s := Quaternion_quaternion_multiply
               (Quaternion_quaternion_multiply q
                  (mkQuaternion 0 (v_x v) (v_y v) (v_z v)))
               (Quaternion_conjugate q) in
    Ok (mkVector (q_i s) (q_j s) (q_k s)).
Proof.
  intro H.
  rewrite Vector_quaternion_rotate_unfold, Quaternion_normalize_unit by exact H.
  cbv zeta. now rewrite Vector_new_R.
Qed.

Lemma sqnorm_conjugate (q : Quaternion R) :
  sqnorm (Quaternion_conjugate q) = sqnorm q.
Proof. unfold sqnorm, Quaternion_conjugate; cbn. ring. Qed.


(** *** [Quaternion.from_axis_rotation] *)

Lemma Quaternion_from_axis_rotation_R (axis : Vector R) (angle : R) :
  Quaternion_from_axis_rotation axis angle
  = Quaternion_normalize (axis_rotation_raw axis angle).
Proof. reflexivity. Qed.

Lemma sin_cos_squares (x : R) : cos x * cos x + sin x * sin x = 1.
Proof. pose proof (sin2_cos2 x) as H. unfold Rsqr in H. lra. Qed.

Lemma sqnorm_axis_rotation_raw (axis : Vector R) (angle : R) :
  Vector_mag axis <> 0 -> sqnorm (axis_rotation_raw axis angle) = 1.
Proof.
  intro H. pose proof (Vector_norm_unit axis H) as U.
  pose proof (sin_cos_squares (angle / 2)) as SC.
  unfold sqnorm, axis_rotation_raw; cbn [q_a q_i q_j q_k].
  set (n := Vector_norm axis) in *.
  set (c := cos (angle / 2)) in *. set (s := sin (angle / 2)) in *.
  transitivity (c * c + s * s * (v_x n * v_x n + v_y n * v_y n
                                 + v_z n * v_z n)); [ring|].
  rewrite U. lra.
Qed.

Lemma axis_rotation_raw_zero_axis (angle : R) :
  axis_rotation_raw zero_vector angle
  = mkQuaternion (cos (angle / 2)) (0 * sin (angle / 2))
                 (0 * sin (angle / 2)) (0 * sin (angle / 2)).
Proof.
  unfold axis_rotation_raw. rewrite zero_vector_R.
  rewrite Vector_norm_R_zero by now apply Vector_mag_zero_iff.
  reflexivity.
Qed.

(** With a nonzero axis the quaternion is already of unit length: the
    final [normalize()] returns it unchanged. *)
Lemma Quaternion_from_axis_rotation_nonzero (axis : Vector R) (angle : R) :
  Vector_mag axis <> 0 ->
  Quaternion_from_axis_rotation axis angle
  = Ok (axis_rotation_raw axis angle).
Proof.
  intro H. rewrite Quaternion_from_axis_rotation_R.
  now apply Quaternion_normalize_unit, sqnorm_axis_rotation_raw.
Qed.

Lemma axis_rotation_raw_opp (axis : Vector R) (angle : R) :
  axis_rotation_raw axis (- angle)
  = Quaternion_conjugate (axis_rotation_raw axis angle).
Proof.
  unfold axis_rotation_raw, Quaternion_conjugate, Quaternion_new.
  cbn [q_a q_i q_j q_k].
  replace (- angle / 2) with (- (angle / 2)) by field.
  rewrite cos_neg, sin_neg. cbn. f_equal; ring.
Qed.

(** [from_axis_rotation] succeeds, with a unit quaternion, as soon as the
    half-angle cosine is not zero, whatever the axis. *)
Lemma Quaternion_from_axis_rotation_defined (axis : Vector R) (angle : R) :
  cos (angle / 2) <> 0 ->
  exists q, Quaternion_from_axis_rotation axis angle = Ok q /\ sqnorm q = 1.
Proof.
  intro H. rewrite Quaternion_from_axis_rotation_R.
  apply Quaternion_normalize_sqnorm, Quaternion_mag_nonzero.
  unfold sqnorm, axis_rotation_raw; cbn [q_a q_i q_j q_k].
  set (c := cos (angle / 2)) in *. nra.
Qed.

Lemma Vector_rotate_axis_unfold (v axis : Vector R) (angle : R)
    (q : Quaternion R) :
  Quaternion_from_axis_rotation axis angle = Ok q ->
  Vector_rotate_axis v axis angle = Vector_quaternion_rotate v q.
Proof. unfold Vector_rotate_axis, Vector_q_rotate. now intros ->. Qed.


(** *** The zero axis *)


(** In exact arithmetic the half-angle cosine can be zero (at [theta = PI]),
    and then the final [normalize()] divides by zero. *)
Lemma Quaternion_from_axis_rotation_zero_axis_throws (theta : R) :
  cos (theta / 2) = 0 ->
  Quaternion_from_axis_rotation zero_vector theta
  = Throw "Cannot divide by 0.".
Proof.
  intro H. rewrite Quaternion_from_axis_rotation_R.
  rewrite axis_rotation_raw_zero_axis, H.
  unfold Quaternion_normalize, Quaternion_div.
  replace (Quaternion_mag _) with 0.
  - cbn. now rewrite R_loose_eq_refl.
  - rewrite Quaternion_mag_R. unfold sqnorm; cbn [q_a q_i q_j q_k].
    symmetry. apply sqrt_lem_1; lra || nra.
Qed.





(** ** [Vector.project_2d] *)

Lemma cos_quarter_turn : cos (PI / 2 / 2) <> 0.
Proof.
  pose proof PI_RGT_0 as P.
  assert (0 < cos (PI / 2 / 2)); [|lra].
  apply cos_gt_0; lra.
Qed.

Lemma Vector_rotate_axis_defined (v axis : Vector R) (angle : R) :
  cos (angle / 2) <> 0 ->
  exists w, Vector_rotate_axis v axis angle = Ok w.
Proof.
  intro H.
  destruct (Quaternion_from_axis_rotation_defined axis angle H) as [q [Hq U]].
  rewrite (Vector_rotate_axis_unfold _ _ _ _ Hq).
  rewrite Vector_quaternion_rotate_unit by exact U.
  cbv zeta. eexists. reflexivity.
Qed.

(** Whatever the numbers are, [0 || 0] is [0]: a vector that
    [project_2d] returns has [z] equal to the literal [0]. *)
Lemma Vector_project_2d_z {num : Type} {N : Number num} {T : Trig num}
    (this origin normal y_axis w : Vector num) :
  Vector_project_2d this origin normal y_axis = Ok w -> v_z w = n0.
Proof.
  unfold Vector_project_2d, bind.
  destruct (Vector_rotate_axis y_axis normal _); [|discriminate].
  intro H. injection H as <-. cbn. now destruct (truthy n0).
Qed.

(** C10: [project_2d] always returns a vector, and its [z] component is
    exactly [0]; on every kind of number, a returned vector has [z] equal
    to the literal [0]. *)
Theorem vector_project_2d_z_is_zero :
  (forall this origin normal y_axis : Vector R,
      exists w : Vector R,
        Vector_project_2d this origin normal y_axis = Ok w /\ v_z w = 0)
  /\ (forall (num : Type) (N : Number num) (T : Trig num)
             (this origin normal y_axis w : Vector num),
         Vector_project_2d this origin normal y_axis = Ok w -> v_z w = n0).
Proof.
  split.
  - intros this origin normal y_axis.
    destruct (Vector_rotate_axis_defined y_axis normal (PI / 2)
                cos_quarter_turn) as [r Hr].
    unfold Vector_project_2d.
    change (Math_PI / n2)%num with (PI / 2). rewrite Hr. cbn [bind].
    eexists. split; [reflexivity|].
    rewrite Vector_new_R. reflexivity.
  - intros num N T. apply Vector_project_2d_z.
Qed.

Lemma vector_project_2d_z_is_zero_witness :
  exists w : Vector R,
    Vector_project_2d (mkVector 1 2 3) (mkVector 0 0 0) (mkVector 0 0 1)
                      (mkVector 0 1 0) = Ok w
    /\ v_z w = 0.
Proof.
  destruct (proj1 vector_project_2d_z_is_zero (mkVector 1 2 3)
              (mkVector 0 0 0) (mkVector 0 0 1) (mkVector 0 1 0))
    as [w [Hw Hz]].
  exists w. split; [exact Hw|].
  exact (proj2 vector_project_2d_z_is_zero R _ _ _ _ _ _ w Hw).
Defined.

(** ** [Vector.angle_between] *)

Lemma Vector_angle_between_R (u v : Vector R) :
  Vector_angle_between u v
  = if R_loose_eq (Vector_mag u * Vector_mag v) 0 then 0
    else acos (Rmin (Rmax (Vector_dot u v / (Vector_mag u * Vector_mag v))
                          (- (1))) 1).
Proof. reflexivity. Qed.

Lemma clamp_bounds (r : R) : -1 <= Rmin (Rmax r (-1)) 1 <= 1.
Proof.
  split.
  - apply Rmin_glb; [apply Rmax_r | lra].
  - apply Rmin_r.
Qed.

(** In exact arithmetic [angle_between] lies in [[0, PI]], is [0] when
    either magnitude is [0], and otherwise is [acos] of the clamped
    ratio. *)
Lemma Vector_angle_between_exact (u v : Vector R) :
  0 <= Vector_angle_between u v <= PI
  /\ (Vector_mag u = 0 \/ Vector_mag v = 0 -> Vector_angle_between u v = 0)
  /\ (Vector_mag u <> 0 /\ Vector_mag v <> 0 ->
      Vector_angle_between u v
      = acos (Rmin (Rmax (Vector_dot u v / (Vector_mag u * Vector_mag v))
                         (-1)) 1)
      /\ -1 <= Rmin (Rmax (Vector_dot u v / (Vector_mag u * Vector_mag v))
                          (-1)) 1 <= 1).
Proof.
  rewrite Vector_angle_between_R.
  change (- (1)) with (-1).
  destruct (R_loose_eq (Vector_mag u * Vector_mag v) 0) eqn:E.
  - apply R_loose_eq_true in E. split; [|split].
    + pose proof PI_RGT_0. lra.
    + reflexivity.
    + intros [Hu Hv]. apply Rmult_integral in E. tauto.
  - apply R_loose_eq_false in E. split; [|split].
    + apply acos_bound.
    + intros [H | H]; rewrite H in E; exfalso; apply E; ring.
    + intros _. split; [reflexivity | apply clamp_bounds].
Qed.

Lemma mag_unit_x : Vector_mag (mkVector 1 0 0) = 1.
Proof.
  rewrite Vector_mag_R; cbn [v_x v_y v_z].
  replace (1 * 1 + 0 * 0 + 0 * 0) with 1 by ring. apply sqrt_1.
Qed.

Lemma mag_zero : Vector_mag (mkVector 0 0 0) = 0.
Proof. now apply Vector_mag_zero_iff. Qed.

(** ** [Vector.distance_from_line] *)

Lemma Vector_sub_R (p a : Vector R) :
  Vector_sub p a
  = mkVector (v_x p + - v_x a) (v_y p + - v_y a) (v_z p + - v_z a).
Proof.
  unfold Vector_sub, Vector_add, Vector_neg. now rewrite !Vector_new_R.
Qed.

Lemma Vector_mag_sub_distance (p a : Vector R) :
  Vector_mag (Vector_sub p a) = distance p a.
Proof.
  rewrite Vector_sub_R, Vector_mag_R. unfold distance; cbn [v_x v_y v_z].
  f_equal; ring.
Qed.

Lemma distance_sqr (p q : Vector R) :
  distance p q * distance p q
  = (v_x p - v_x q) * (v_x p - v_x q) + (v_y p - v_y q) * (v_y p - v_y q)
    + (v_z p - v_z q) * (v_z p - v_z q).
Proof. unfold distance. apply sqrt_sqrt, sum3_squares_nonneg. Qed.

Lemma distance_nonneg (p q : Vector R) : 0 <= distance p q.
Proof. apply sqrt_pos. Qed.

Lemma distance_pos (a b : Vector R) : a <> b -> 0 < distance a b.
Proof.
  intro H. pose proof (distance_nonneg a b) as P.
  destruct (Req_dec_T (distance a b) 0) as [E|E]; [|lra].
  exfalso. apply H. pose proof (distance_sqr a b) as S. rewrite E in S.
  destruct a as [ax ay az], b as [bx b_y bz]; cbn [v_x v_y v_z] in S.
  clear H P E.
  remember (ax - bx) as dx eqn:X. remember (ay - b_y) as dy eqn:Y.
  remember (az - bz) as dz eqn:Z.
  assert (dx = 0) by nra. assert (dy = 0) by nra. assert (dz = 0) by nra.
  f_equal; lra.
Qed.

(** The expression of the source, on the three pairwise distances. *)
Lemma Vector_distance_from_line_R (p a b : Vector R) :
  Vector_distance_from_line p a b
  = sqrt (Rmax 0
            (distance p a * distance p a
             - ((distance p b * distance p b - distance p a * distance p a
                 - distance a b * distance a b)
                / (-2 * distance a b)) ^ 2)).
Proof.
  unfold Vector_distance_from_line. rewrite !Vector_mag_sub_distance.
  reflexivity.
Qed.






(** * Further properties of the code *)

(** ** Vector arithmetic over the reals *)

Lemma Vector_add_R (v w : Vector R) :
  Vector_add v w = mkVector (v_x v + v_x w) (v_y v + v_y w) (v_z v + v_z w).
Proof. unfold Vector_add. now rewrite Vector_new_R. Qed.

Lemma Vector_neg_R (v : Vector R) :
  Vector_neg v = mkVector (- v_x v) (- v_y v) (- v_z v).
Proof. unfold Vector_neg. now rewrite Vector_new_R. Qed.

Lemma Vector_cross_R (u v : Vector R) :
  Vector_cross u v
  = mkVector (v_y u * v_z v - v_z u * v_y v)
             (- (v_x u * v_z v - v_z u * v_x v))
             (v_x u * v_y v - v_y u * v_x v).
Proof. unfold Vector_cross. now rewrite Vector_new_R. Qed.

Lemma Vector_dot_R (u v : Vector R) :
  Vector_dot u v = v_x u * v_x v + v_y u * v_y v + v_z u * v_z v.
Proof. reflexivity. Qed.

Lemma Vector_mul_vector_R (v a : Vector R) :
  Vector_mul v (inr a)
  = mkVector (v_x v * v_x a) (v_y v * v_y a) (v_z v * v_z a).
Proof. unfold Vector_mul. now rewrite Vector_new_R. Qed.

Lemma Vector_ext (v w : Vector R) :
  v_x v = v_x w -> v_y v = v_y w -> v_z v = v_z w -> v = w.
Proof. destruct v, w; cbn. now intros -> -> ->. Qed.

(** [add], [neg] and [sub] are the operations of an abelian group:
    subtracting what was added gives the vector back, and a vector minus
    itself is the zero vector. *)
Theorem vector_add_sub_cancel (v w : Vector R) :
  Vector_sub (Vector_add v w) w = v
  /\ Vector_add (Vector_sub v w) w = v
  /\ Vector_sub v v = zero_vector
  /\ Vector_add v (Vector_neg v) = zero_vector
  /\ Vector_add v w = Vector_add w v.
Proof.
  rewrite zero_vector_R.
  repeat split; apply Vector_ext;
    rewrite ?Vector_sub_R, ?Vector_add_R, ?Vector_neg_R; cbn [v_x v_y v_z];
    rewrite ?Vector_add_R; cbn [v_x v_y v_z]; ring.
Qed.

(** The cross product of a vector with itself is zero, swapping the
    operands negates it, and it is orthogonal to both operands. *)
Theorem vector_cross_properties (u v : Vector R) :
  Vector_cross v v = zero_vector
  /\ Vector_cross u v = Vector_neg (Vector_cross v u)
  /\ Vector_dot (Vector_cross u v) u = 0
  /\ Vector_dot (Vector_cross u v) v = 0.
Proof.
  rewrite zero_vector_R, Vector_neg_R, !Vector_dot_R, !Vector_cross_R.
  cbn [v_x v_y v_z].
  repeat split; try apply Vector_ext; cbn [v_x v_y v_z]; ring.
Qed.

Lemma Vector_dot_self (v : Vector R) :
  Vector_dot v v = Vector_mag v * Vector_mag v.
Proof. now rewrite Vector_mag_sqr. Qed.

(** Lagrange's identity between [cross], [dot] and [mag]. *)
Lemma Vector_lagrange (u v : Vector R) :
  Vector_mag (Vector_cross u v) * Vector_mag (Vector_cross u v)
  + Vector_dot u v * Vector_dot u v
  = Vector_mag u * Vector_mag u * (Vector_mag v * Vector_mag v).
Proof.
  rewrite !Vector_mag_sqr, Vector_dot_R, Vector_cross_R.
  cbn [v_x v_y v_z]. ring.
Qed.

Lemma Vector_cauchy_schwarz (u v : Vector R) :
  Rabs (Vector_dot u v) <= Vector_mag u * Vector_mag v.
Proof.
  pose proof (Vector_lagrange u v) as L.
  pose proof (Vector_mag_nonneg u) as Pu.
  pose proof (Vector_mag_nonneg v) as Pv.
  pose proof (Vector_mag_nonneg (Vector_cross u v)) as Pc.
  set (d := Vector_dot u v) in *. set (mu := Vector_mag u) in *.
  set (mv := Vector_mag v) in *. set (c := Vector_mag (Vector_cross u v)) in *.
  assert (M : 0 <= mu * mv) by nra.
  apply Rabs_le. split; nra.
Qed.

(** [v.dot(v)] is the square of [v.mag()]; the dot product is bounded by
    the product of the magnitudes (Cauchy-Schwarz); and the squared
    magnitude of the cross product and the squared dot product add up to
    the product of the squared magnitudes. *)
Theorem vector_dot_mag_cross (u v : Vector R) :
  Vector_dot v v = Vector_mag v * Vector_mag v
  /\ Rabs (Vector_dot u v) <= Vector_mag u * Vector_mag v
  /\ Vector_mag (Vector_cross u v) * Vector_mag (Vector_cross u v)
     + Vector_dot u v * Vector_dot u v
     = Vector_mag u * Vector_mag u * (Vector_mag v * Vector_mag v).
Proof.
  split; [apply Vector_dot_self|].
  split; [apply Vector_cauchy_schwarz | apply Vector_lagrange].
Qed.

Lemma Vector_mag_mul_scalar (v : Vector R) (c : R) :
  Vector_mag (Vector_mul v (inl c)) = Rabs c * Vector_mag v.
Proof.
  rewrite Vector_mul_scalar_R, Vector_mag_R. cbn [v_x v_y v_z].
  pose proof (Vector_mag_sqr v) as S.
  replace (v_x v * c * (v_x v * c) + v_y v * c * (v_y v * c)
           + v_z v * c * (v_z v * c))
    with (Rsqr (c * Vector_mag v))
    by (unfold Rsqr;
        transitivity (c * c * (Vector_mag v * Vector_mag v));
        [ring | rewrite S; ring]).
  rewrite sqrt_Rsqr_abs, Rabs_mult.
  now rewrite (Rabs_right (Vector_mag v)) by (apply Rle_ge, Vector_mag_nonneg).
Qed.

Lemma Vector_mag_norm (v : Vector R) :
  Vector_mag v <> 0 -> Vector_mag (Vector_norm v) = 1.
Proof.
  intro H. rewrite Vector_mag_R, Vector_norm_unit by assumption. apply sqrt_1.
Qed.

Lemma Vector_norm_of_unit (v : Vector R) :
  Vector_mag v = 1 -> Vector_norm v = v.
Proof.
  intro H. rewrite Vector_norm_R_nonzero by (rewrite H; lra).
  rewrite H. apply Vector_ext; cbn [v_x v_y v_z]; field.
Qed.

Lemma Vector_norm_mul_positive (v : Vector R) (c : R) :
  0 < c -> Vector_norm (Vector_mul v (inl c)) = Vector_norm v.
Proof.
  intro C. pose proof (Vector_mag_mul_scalar v c) as M.
  rewrite Rabs_right in M by lra.
  destruct (Req_dec_T (Vector_mag v) 0) as [Z|NZ].
  - rewrite (Vector_norm_R_zero v Z).
    apply Vector_norm_R_zero. rewrite M, Z. ring.
  - assert (NZ' : Vector_mag (Vector_mul v (inl c)) <> 0).
    { rewrite M. apply Rmult_integral_contrapositive. split; lra. }
    rewrite (Vector_norm_R_nonzero _ NZ'), (Vector_norm_R_nonzero _ NZ), M.
    rewrite Vector_mul_scalar_R. cbn [v_x v_y v_z].
    apply Vector_ext; cbn [v_x v_y v_z]; field; split; lra.
Qed.

(** Scaling by a number scales the magnitude by its absolute value, and
    scaling by a positive number does not change [norm()]: an axis or a
    direction need not be normalized by the caller. *)
Theorem vector_mul_scalar_mag_norm (v : Vector R) (c : R) :
  Vector_mag (Vector_mul v (inl c)) = Rabs c * Vector_mag v
  /\ (0 < c -> Vector_norm (Vector_mul v (inl c)) = Vector_norm v).
Proof.
  split; [apply Vector_mag_mul_scalar | apply Vector_norm_mul_positive].
Qed.

Lemma vector_mul_scalar_mag_norm_witness :
  Vector_norm (Vector_mul (mkVector 3 4 0) (inl 2)) = Vector_norm (mkVector 3 4 0).
Proof.
  apply (proj2 (vector_mul_scalar_mag_norm (mkVector 3 4 0) 2)). lra.
Defined.

(** [norm()] is idempotent: normalizing a second time changes nothing,
    for the zero vector included. *)
Theorem vector_norm_idempotent (v : Vector R) :
  Vector_norm (Vector_norm v) = Vector_norm v.
Proof.
  destruct (Req_dec_T (Vector_mag v) 0) as [Z|NZ].
  - rewrite (Vector_norm_R_zero v Z).
    apply Vector_norm_R_zero. now apply Vector_mag_zero_iff.
  - apply Vector_norm_of_unit, Vector_mag_norm, NZ.
Qed.

(** ** Angles and projections over the reals *)

Lemma Vector_dot_zero_mag (u v : Vector R) :
  Vector_mag u * Vector_mag v = 0 -> Vector_dot u v = 0.
Proof.
  intro H. apply Rmult_integral in H. rewrite Vector_dot_R.
  destruct H as [H|H]; apply Vector_mag_zero_iff in H; rewrite H;
    cbn [v_x v_y v_z]; ring.
Qed.

Lemma ratio_bounds (d m : R) : Rabs d <= m -> m <> 0 -> -1 <= d / m <= 1.
Proof.
  intros A M. pose proof (Rabs_pos d) as P.
  assert (0 < m) by lra.
  assert (0 < / m) by now apply Rinv_0_lt_compat.
  assert (m * / m = 1) by now field.
  pose proof (Rle_abs d) as A1. pose proof (Rle_abs (- d)) as A2.
  rewrite Rabs_Ropp in A2.
  unfold Rdiv. split; nra.
Qed.

(** With nonzero magnitudes the clamp changes nothing. *)
Lemma Vector_angle_between_unclamped (u v : Vector R) :
  Vector_mag u * Vector_mag v <> 0 ->
  Vector_angle_between u v
  = acos (Vector_dot u v / (Vector_mag u * Vector_mag v)).
Proof.
  intro H. rewrite Vector_angle_between_R.
  replace (R_loose_eq (Vector_mag u * Vector_mag v) 0) with false
    by (symmetry; now apply R_loose_eq_false).
  pose proof (ratio_bounds _ _ (Vector_cauchy_schwarz u v) H) as [Lo Hi].
  change (- (1)) with (-1).
  rewrite Rmax_left by exact Lo. now rewrite Rmin_left by exact Hi.
Qed.

Lemma cos_angle_between (u v : Vector R) :
  cos (Vector_angle_between u v) * (Vector_mag u * Vector_mag v)
  = Vector_dot u v.
Proof.
  destruct (Req_dec_T (Vector_mag u * Vector_mag v) 0) as [Z|NZ].
  - rewrite (Vector_dot_zero_mag u v Z), Z. ring.
  - rewrite (Vector_angle_between_unclamped u v NZ).
    rewrite cos_acos
      by exact (ratio_bounds _ _ (Vector_cauchy_schwarz u v) NZ).
    field. split; intro E; apply NZ; rewrite E; ring.
Qed.

(** [angle_between] is the angle whose cosine times the two magnitudes is
    the dot product, for zero vectors too; when both magnitudes are
    nonzero the clamp to [[-1, 1]] is never active in exact arithmetic. *)
Theorem angle_between_cosine (u v : Vector R) :
  cos (Vector_angle_between u v) * (Vector_mag u * Vector_mag v)
  = Vector_dot u v
  /\ (Vector_mag u <> 0 /\ Vector_mag v <> 0 ->
      -1 <= Vector_dot u v / (Vector_mag u * Vector_mag v) <= 1
      /\ Vector_angle_between u v
         = acos (Vector_dot u v / (Vector_mag u * Vector_mag v))).
Proof.
  split; [apply cos_angle_between|].
  intros [Hu Hv].
  assert (NZ : Vector_mag u * Vector_mag v <> 0)
    by (apply Rmult_integral_contrapositive; now split).
  split.
  - exact (ratio_bounds _ _ (Vector_cauchy_schwarz u v) NZ).
  - now apply Vector_angle_between_unclamped.
Qed.

Lemma angle_between_cosine_witness :
  Vector_angle_between (mkVector 3 4 0) (mkVector 3 4 0)
  = acos (Vector_dot (mkVector 3 4 0) (mkVector 3 4 0)
          / (Vector_mag (mkVector 3 4 0) * Vector_mag (mkVector 3 4 0))).
Proof.
  apply (proj2 (angle_between_cosine (mkVector 3 4 0) (mkVector 3 4 0))).
  rewrite mag_3_4_0. split; lra.
Defined.

Lemma Vector_mag_neg (v : Vector R) : Vector_mag (Vector_neg v) = Vector_mag v.
Proof.
  rewrite Vector_neg_R, !Vector_mag_R. cbn [v_x v_y v_z]. f_equal. ring.
Qed.

(** The angle between a vector and itself is [0], between a nonzero
    vector and its negation [PI], and the angle does not depend on the
    order of the two vectors. *)
Theorem angle_between_self_opposite_symmetric (u v : Vector R) :
  Vector_angle_between v v = 0
  /\ (Vector_mag v <> 0 -> Vector_angle_between v (Vector_neg v) = PI)
  /\ Vector_angle_between u v = Vector_angle_between v u.
Proof.
  split; [|split].
  - destruct (Req_dec_T (Vector_mag v) 0) as [Z|Hv].
    + rewrite Vector_angle_between_R.
      now replace (R_loose_eq (Vector_mag v * Vector_mag v) 0) with true
        by (symmetry; apply R_loose_eq_true; rewrite Z; ring).
    + assert (NZ : Vector_mag v * Vector_mag v <> 0)
        by (apply Rmult_integral_contrapositive; now split).
      rewrite (Vector_angle_between_unclamped v v NZ), Vector_dot_self.
      replace (Vector_mag v * Vector_mag v / (Vector_mag v * Vector_mag v))
        with 1 by now field.
      apply acos_1.
  - intro H.
    assert (NZ : Vector_mag v * Vector_mag (Vector_neg v) <> 0).
    { rewrite Vector_mag_neg. apply Rmult_integral_contrapositive. now split. }
    rewrite (Vector_angle_between_unclamped _ _ NZ), Vector_mag_neg.
    replace (Vector_dot v (Vector_neg v)) with (- (Vector_mag v * Vector_mag v))
      by (rewrite <- Vector_dot_self, !Vector_dot_R, Vector_neg_R;
          cbn [v_x v_y v_z]; ring).
    replace (- (Vector_mag v * Vector_mag v) / (Vector_mag v * Vector_mag v))
      with (- (1)) by now field.
    rewrite acos_opp, acos_1. ring.
  - rewrite !Vector_angle_between_R.
    rewrite (Rmult_comm (Vector_mag v) (Vector_mag u)).
    replace (Vector_dot v u) with (Vector_dot u v)
      by (rewrite !Vector_dot_R; ring).
    reflexivity.
Qed.

Lemma angle_between_self_opposite_symmetric_witness :
  Vector_angle_between (mkVector 3 4 0) (Vector_neg (mkVector 3 4 0)) = PI.
Proof.
  apply (proj1 (proj2 (angle_between_self_opposite_symmetric
                         (mkVector 3 4 0) (mkVector 3 4 0)))).
  rewrite mag_3_4_0. lra.
Defined.

Lemma Vector_project_R (u v : Vector R) :
  Vector_project u v
  = Vector_mul (Vector_norm v)
      (inl (cos (Vector_angle_between u v) * Vector_mag u)).
Proof. reflexivity. Qed.

Lemma Vector_project_nonzero (u v : Vector R) :
  Vector_mag v <> 0 ->
  Vector_project u v = Vector_mul v (inl (Vector_dot u v / Vector_dot v v)).
Proof.
  intro H. rewrite Vector_project_R, !Vector_mul_scalar_R.
  rewrite (Vector_norm_R_nonzero v H). cbn [v_x v_y v_z].
  rewrite Vector_dot_self, <- (cos_angle_between u v).
  apply Vector_ext; cbn [v_x v_y v_z]; now field.
Qed.

(** [project] is the orthogonal projection onto the direction of [v]:
    [v] scaled by [u.v / v.v]; onto a vector of magnitude 0 it is the zero
    vector.  What is left of [u] is orthogonal to [v]. *)
Theorem vector_project_formula (u v : Vector R) :
  (Vector_mag v <> 0 ->
   Vector_project u v = Vector_mul v (inl (Vector_dot u v / Vector_dot v v))
   /\ Vector_dot (Vector_sub u (Vector_project u v)) v = 0)
  /\ (Vector_mag v = 0 -> Vector_project u v = zero_vector).
Proof.
  split.
  - intro H. split; [now apply Vector_project_nonzero|].
    rewrite (Vector_project_nonzero u v H).
    assert (D : Vector_dot v v <> 0).
    { rewrite Vector_dot_self. apply Rmult_integral_contrapositive.
      now split. }
    rewrite Vector_sub_R, Vector_mul_scalar_R, !Vector_dot_R in *.
    cbn [v_x v_y v_z]. now field.
  - intro Z. rewrite Vector_project_R, (Vector_norm_R_zero v Z).
    rewrite Vector_mul_scalar_R, zero_vector_R. cbn [v_x v_y v_z].
    apply Vector_ext; cbn [v_x v_y v_z]; ring.
Qed.

Lemma vector_project_formula_witness :
  Vector_project (mkVector 1 2 3) (mkVector 3 4 0)
  = Vector_mul (mkVector 3 4 0)
      (inl (Vector_dot (mkVector 1 2 3) (mkVector 3 4 0)
            / Vector_dot (mkVector 3 4 0) (mkVector 3 4 0)))
  /\ Vector_project (mkVector 1 2 3) (mkVector 0 0 0) = zero_vector.
Proof.
  split.
  - apply (proj1 (vector_project_formula (mkVector 1 2 3) (mkVector 3 4 0))).
    rewrite mag_3_4_0. lra.
  - apply (proj2 (vector_project_formula (mkVector 1 2 3) (mkVector 0 0 0))).
    exact mag_zero.
Defined.

Lemma Vector_planar_project_R (p o n : Vector R) :
  Vector_planar_project p o n = Vector_add p (Vector_project (Vector_sub o p) n).
Proof. reflexivity. Qed.

Lemma Vector_planar_project_orthogonal (p o n : Vector R) :
  Vector_mag n <> 0 ->
  Vector_dot (Vector_sub (Vector_planar_project p o n) o) n = 0.
Proof.
  intro H. rewrite Vector_planar_project_R, (Vector_project_nonzero _ n H).
  assert (D : Vector_dot n n <> 0).
  { rewrite Vector_dot_self. apply Rmult_integral_contrapositive. now split. }
  rewrite Vector_sub_R, Vector_add_R, Vector_mul_scalar_R, Vector_sub_R,
    !Vector_dot_R in *.
  cbn [v_x v_y v_z] in *. now field.
Qed.

Lemma Vector_planar_project_fixed (p o n : Vector R) :
  Vector_dot (Vector_sub p o) n = 0 -> Vector_planar_project p o n = p.
Proof.
  intro H. rewrite Vector_planar_project_R.
  assert (E : Vector_dot (Vector_sub o p) n = 0).
  { rewrite Vector_sub_R, Vector_dot_R in *. cbn [v_x v_y v_z] in *. lra. }
  destruct (Req_dec_T (Vector_mag n) 0) as [Z|NZ].
  - rewrite Vector_project_R, (Vector_norm_R_zero n Z).
    rewrite Vector_mul_scalar_R, Vector_add_R. cbn [v_x v_y v_z].
    apply Vector_ext; cbn [v_x v_y v_z]; ring.
  - rewrite (Vector_project_nonzero _ n NZ), E.
    rewrite Vector_mul_scalar_R, Vector_add_R. cbn [v_x v_y v_z].
    apply Vector_ext; cbn [v_x v_y v_z]; unfold Rdiv; ring.
Qed.

(** [planar_project] lands in the plane through [origin] orthogonal to
    [normal] (for a normal of nonzero magnitude), moves the point along
    the normal only, leaves a point of the plane where it is, and is
    therefore idempotent. *)
Theorem vector_planar_project_in_plane (p o n : Vector R) :
  Vector_mag n <> 0 ->
  Vector_dot (Vector_sub (Vector_planar_project p o n) o) n = 0
  /\ (exists c : R,
         Vector_planar_project p o n = Vector_add p (Vector_mul n (inl c)))
  /\ (Vector_dot (Vector_sub p o) n = 0 -> Vector_planar_project p o n = p)
  /\ Vector_planar_project (Vector_planar_project p o n) o n
     = Vector_planar_project p o n.
Proof.
  intro H. split; [now apply Vector_planar_project_orthogonal|].
  split; [|split].
  - eexists. rewrite Vector_planar_project_R.
    now rewrite (Vector_project_nonzero _ n H).
  - apply Vector_planar_project_fixed.
  - now apply Vector_planar_project_fixed, Vector_planar_project_orthogonal.
Qed.

Lemma mag_unit_z : Vector_mag (mkVector 0 0 1) <> 0.
Proof.
  intro E. apply Vector_mag_zero_iff in E. injection E as E. lra.
Qed.

Lemma vector_planar_project_in_plane_witness :
  Vector_dot (Vector_sub (Vector_planar_project (mkVector 1 2 3)
                            (mkVector 0 0 0) (mkVector 0 0 1))
                         (mkVector 0 0 0)) (mkVector 0 0 1) = 0.
Proof.
  apply (vector_planar_project_in_plane (mkVector 1 2 3) (mkVector 0 0 0)
           (mkVector 0 0 1)).
  exact mag_unit_z.
Defined.

(** ** Quaternion algebra over the reals *)

Lemma Quaternion_ext (p q : Quaternion R) :
  q_a p = q_a q -> q_i p = q_i q -> q_j p = q_j q -> q_k p = q_k q -> p = q.
Proof. destruct p, q; cbn. now intros -> -> -> ->. Qed.

Lemma sqnorm_multiply (p q : Quaternion R) :
  sqnorm (Quaternion_quaternion_multiply p q) = sqnorm p * sqnorm q.
Proof. unfold sqnorm, Quaternion_quaternion_multiply; cbn. ring. Qed.

Lemma Quaternion_mag_from_sqnorm (q : Quaternion R) (m : R) :
  0 <= m -> sqnorm q = m * m -> Quaternion_mag q = m.
Proof. intros P H. rewrite Quaternion_mag_R, H. now apply sqrt_square. Qed.

(** [quaternion_multiply] is associative, has [new Quaternion()] as its
    unit on both sides, multiplies magnitudes, is reversed by [conjugate],
    and a quaternion times its conjugate is its squared magnitude. *)
Theorem quaternion_multiply_algebra (p q r : Quaternion R) :
  Quaternion_quaternion_multiply (Quaternion_quaternion_multiply p q) r
  = Quaternion_quaternion_multiply p (Quaternion_quaternion_multiply q r)
  /\ Quaternion_quaternion_multiply identity_quaternion q = q
  /\ Quaternion_quaternion_multiply q identity_quaternion = q
  /\ Quaternion_mag (Quaternion_quaternion_multiply p q)
     = Quaternion_mag p * Quaternion_mag q
  /\ Quaternion_conjugate (Quaternion_quaternion_multiply p q)
     = Quaternion_quaternion_multiply (Quaternion_conjugate q)
                                      (Quaternion_conjugate p)
  /\ Quaternion_quaternion_multiply q (Quaternion_conjugate q)
     = mkQuaternion (Quaternion_mag q * Quaternion_mag q) 0 0 0.
Proof.
  split; [|split; [|split; [|split; [|split]]]].
  - apply Quaternion_ext; cbn; ring.
  - apply Quaternion_ext; cbn; ring.
  - apply Quaternion_ext; cbn; ring.
  - apply Quaternion_mag_from_sqnorm.
    + pose proof (Quaternion_mag_nonneg p). pose proof (Quaternion_mag_nonneg q).
      nra.
    + rewrite sqnorm_multiply, <- !Quaternion_mag_sqr. ring.
  - apply Quaternion_ext; cbn; ring.
  - rewrite Quaternion_mag_sqr. apply Quaternion_ext; unfold sqnorm; cbn; ring.
Qed.

Lemma Quaternion_normalize_ok_mag (q q' : Quaternion R) :
  Quaternion_normalize q = Ok q' -> Quaternion_mag q <> 0.
Proof.
  intros H Z. unfold Quaternion_normalize, Quaternion_div in H.
  rewrite Z in H. cbn in H. rewrite R_loose_eq_refl in H. discriminate.
Qed.

Lemma Quaternion_normalize_ok_sqnorm (q q' : Quaternion R) :
  Quaternion_normalize q = Ok q' -> sqnorm q' = 1.
Proof.
  intro H. pose proof (Quaternion_normalize_ok_mag q q' H) as M.
  destruct (Quaternion_normalize_sqnorm q M) as [q'' [E U]].
  rewrite E in H. now injection H as <-.
Qed.

(** Whatever [normalize()] returns has magnitude 1, lies on the ray of the
    original (the original is the result scaled by its magnitude), and is
    a fixed point of [normalize()]. *)
Theorem quaternion_normalize_unit_idempotent (q q' : Quaternion R) :
  Quaternion_normalize q = Ok q' ->
  Quaternion_mag q' = 1
  /\ Quaternion_mul q' (Quaternion_mag q) = q
  /\ Quaternion_normalize q' = Ok q'.
Proof.
  intro H. pose proof (Quaternion_normalize_ok_sqnorm q q' H) as U.
  pose proof (Quaternion_normalize_ok_mag q q' H) as M.
  split; [now apply Quaternion_mag_unit|]. split.
  - rewrite Quaternion_normalize_R in H by exact M. injection H as <-.
    set (m := Quaternion_mag q) in *.
    apply Quaternion_ext; cbn; field; exact M.
  - now apply Quaternion_normalize_unit.
Qed.

Lemma quaternion_normalize_unit_idempotent_witness :
  Quaternion_mag identity_quaternion = 1
  /\ Quaternion_mul identity_quaternion (Quaternion_mag identity_quaternion)
     = identity_quaternion
  /\ Quaternion_normalize identity_quaternion = Ok identity_quaternion.
Proof.
  apply (quaternion_normalize_unit_idempotent identity_quaternion
           identity_quaternion).
  apply Quaternion_normalize_unit. unfold sqnorm; cbn; ring.
Defined.

(** ** Rotation of vectors by quaternions, over the reals *)

Lemma Vector_quaternion_rotate_normalized
    (v : Vector R) (q q_n : Quaternion R) :
  Quaternion_normalize q = Ok q_n ->
  Vector_quaternion_rotate v q = Ok (sandwich q_n v).
Proof.
  intro H. rewrite Vector_quaternion_rotate_unfold, H. cbv zeta.
  now rewrite Vector_new_R.
Qed.

Lemma Vector_quaternion_rotate_sandwich (v : Vector R) (q : Quaternion R) :
  sqnorm q = 1 -> Vector_quaternion_rotate v q = Ok (sandwich q v).
Proof.
  intro H. now apply Vector_quaternion_rotate_normalized,
    Quaternion_normalize_unit.
Qed.

Lemma Vector_quaternion_rotate_zero_mag (v : Vector R) (q : Quaternion R) :
  Quaternion_mag q = 0 ->
  Vector_quaternion_rotate v q = Throw "Cannot divide by 0.".
Proof.
  intro Z. rewrite Vector_quaternion_rotate_unfold.
  unfold Quaternion_normalize, Quaternion_div. rewrite Z. cbn.
  now rewrite R_loose_eq_refl.
Qed.

Lemma sandwich_dot (q : Quaternion R) (u v : Vector R) :
  Vector_dot (sandwich q u) (sandwich q v)
  = sqnorm q * sqnorm q * Vector_dot u v.
Proof. unfold sandwich, sqnorm; rewrite !Vector_dot_R; cbn. ring. Qed.

Lemma sandwich_mag (q : Quaternion R) (v : Vector R) :
  sqnorm q = 1 -> Vector_mag (sandwich q v) = Vector_mag v.
Proof.
  intro H. rewrite !Vector_mag_R. f_equal.
  pose proof (sandwich_dot q v v) as D. rewrite !Vector_dot_R, H in D.
  rewrite D. ring.
Qed.

Lemma sandwich_add (q : Quaternion R) (u v : Vector R) :
  sandwich q (Vector_add u v) = Vector_add (sandwich q u) (sandwich q v).
Proof.
  rewrite !Vector_add_R. unfold sandwich; cbn.
  apply Vector_ext; cbn; ring.
Qed.

Lemma sandwich_scale (q : Quaternion R) (v : Vector R) (c : R) :
  sandwich q (Vector_mul v (inl c)) = Vector_mul (sandwich q v) (inl c).
Proof.
  rewrite !Vector_mul_scalar_R. unfold sandwich; cbn.
  apply Vector_ext; cbn; ring.
Qed.

Lemma sandwich_compose (p q : Quaternion R) (v : Vector R) :
  sandwich p (sandwich q v) = sandwich (Quaternion_quaternion_multiply p q) v.
Proof. unfold sandwich; cbn. apply Vector_ext; cbn; ring. Qed.

Lemma Vector_angle_between_congr (u v u' v' : Vector R) :
  Vector_mag u' = Vector_mag u -> Vector_mag v' = Vector_mag v ->
  Vector_dot u' v' = Vector_dot u v ->
  Vector_angle_between u' v' = Vector_angle_between u v.
Proof. intros Hu Hv Hd. now rewrite !Vector_angle_between_R, Hu, Hv, Hd. Qed.

(** [Vector.quaternion_rotate] throws exactly when [q] has magnitude 0;
    otherwise it is an isometry: it keeps magnitudes, dot products and
    angles. *)
Theorem vector_quaternion_rotate_isometry
    (u v : Vector R) (q : Quaternion R) :
  (Quaternion_mag q = 0 ->
   Vector_quaternion_rotate v q = Throw "Cannot divide by 0.")
  /\ (Quaternion_mag q <> 0 ->
      exists u' v' : Vector R,
        Vector_quaternion_rotate u q = Ok u'
        /\ Vector_quaternion_rotate v q = Ok v'
        /\ Vector_mag v' = Vector_mag v
        /\ Vector_dot u' v' = Vector_dot u v
        /\ Vector_angle_between u' v' = Vector_angle_between u v).
Proof.
  split; [apply Vector_quaternion_rotate_zero_mag|].
  intro H. destruct (Quaternion_normalize_sqnorm q H) as [q_n [Hn U]].
  exists (sandwich q_n u), (sandwich q_n v).
  assert (D : Vector_dot (sandwich q_n u) (sandwich q_n v) = Vector_dot u v)
    by (rewrite sandwich_dot, U; ring).
  repeat split.
  - now apply Vector_quaternion_rotate_normalized.
  - now apply Vector_quaternion_rotate_normalized.
  - now apply sandwich_mag.
  - exact D.
  - apply Vector_angle_between_congr; try exact D; now apply sandwich_mag.
Qed.

Lemma sqnorm_2000 : Quaternion_mag (mkQuaternion 2 0 0 0) <> 0.
Proof. apply Quaternion_mag_nonzero. unfold sqnorm; cbn. lra. Qed.

Lemma mag_0000 : Quaternion_mag (mkQuaternion 0 0 0 0) = 0.
Proof.
  apply Quaternion_mag_from_sqnorm; [lra | unfold sqnorm; cbn; ring].
Qed.

Lemma vector_quaternion_rotate_isometry_witness :
  Vector_quaternion_rotate (mkVector 1 2 3) (mkQuaternion 0 0 0 0)
  = Throw "Cannot divide by 0."
  /\ exists u' v' : Vector R,
       Vector_quaternion_rotate (mkVector 3 4 0) (mkQuaternion 2 0 0 0) = Ok u'
       /\ Vector_quaternion_rotate (mkVector 1 2 3) (mkQuaternion 2 0 0 0)
          = Ok v'
       /\ Vector_mag v' = Vector_mag (mkVector 1 2 3)
       /\ Vector_dot u' v' = Vector_dot (mkVector 3 4 0) (mkVector 1 2 3)
       /\ Vector_angle_between u' v'
          = Vector_angle_between (mkVector 3 4 0) (mkVector 1 2 3).
Proof.
  split.
  - apply (proj1 (vector_quaternion_rotate_isometry (mkVector 1 2 3)
                    (mkVector 1 2 3) (mkQuaternion 0 0 0 0))).
    exact mag_0000.
  - apply (proj2 (vector_quaternion_rotate_isometry (mkVector 3 4 0)
                    (mkVector 1 2 3) (mkQuaternion 2 0 0 0))).
    exact sqnorm_2000.
Defined.

(** [Vector.quaternion_rotate] is linear in the vector: it commutes with
    [add] and with scaling by a number. *)
Theorem vector_quaternion_rotate_linear
    (u v : Vector R) (c : R) (q : Quaternion R) :
  Quaternion_mag q <> 0 ->
  exists u' v' : Vector R,
    Vector_quaternion_rotate u q = Ok u'
    /\ Vector_quaternion_rotate v q = Ok v'
    /\ Vector_quaternion_rotate (Vector_add u v) q = Ok (Vector_add u' v')
    /\ Vector_quaternion_rotate (Vector_mul v (inl c)) q
       = Ok (Vector_mul v' (inl c)).
Proof.
  intro H. destruct (Quaternion_normalize_sqnorm q H) as [q_n [Hn U]].
  exists (sandwich q_n u), (sandwich q_n v).
  rewrite !(Vector_quaternion_rotate_normalized _ q q_n Hn).
  now rewrite sandwich_add, sandwich_scale.
Qed.

Lemma vector_quaternion_rotate_linear_witness :
  exists u' v' : Vector R,
    Vector_quaternion_rotate (mkVector 3 4 0) (mkQuaternion 2 0 0 0) = Ok u'
    /\ Vector_quaternion_rotate (mkVector 1 2 3) (mkQuaternion 2 0 0 0) = Ok v'
    /\ Vector_quaternion_rotate
         (Vector_add (mkVector 3 4 0) (mkVector 1 2 3)) (mkQuaternion 2 0 0 0)
       = Ok (Vector_add u' v')
    /\ Vector_quaternion_rotate
         (Vector_mul (mkVector 1 2 3) (inl 5)) (mkQuaternion 2 0 0 0)
       = Ok (Vector_mul v' (inl 5)).
Proof.
  apply (vector_quaternion_rotate_linear (mkVector 3 4 0) (mkVector 1 2 3) 5
           (mkQuaternion 2 0 0 0)).
  exact sqnorm_2000.
Defined.

(** ** Composition of rotations *)

Lemma Quaternion_quaternion_rotate_ok (t q t_n q_n : Quaternion R) :
  Quaternion_normalize t = Ok t_n -> Quaternion_normalize q = Ok q_n ->
  Quaternion_quaternion_rotate t q
  = Ok (Quaternion_quaternion_multiply q_n t_n).
Proof.
  intros Ht Hq. unfold Quaternion_quaternion_rotate. now rewrite Hq, Ht.
Qed.

Lemma Quaternion_quaternion_rotate_acts (t q : Quaternion R) :
  Quaternion_mag t <> 0 -> Quaternion_mag q <> 0 ->
  exists r : Quaternion R,
    Quaternion_quaternion_rotate t q = Ok r
    /\ sqnorm r = 1
    /\ forall v : Vector R,
         Vector_quaternion_rotate v r
         = (w <- Vector_quaternion_rotate v t ;; Vector_quaternion_rotate w q).
Proof.
  intros Ht Hq.
  destruct (Quaternion_normalize_sqnorm t Ht) as [t_n [Et Ut]].
  destruct (Quaternion_normalize_sqnorm q Hq) as [q_n [Eq Uq]].
  exists (Quaternion_quaternion_multiply q_n t_n).
  assert (U : sqnorm (Quaternion_quaternion_multiply q_n t_n) = 1)
    by (rewrite sqnorm_multiply, Ut, Uq; ring).
  split; [now apply Quaternion_quaternion_rotate_ok|]. split; [exact U|].
  intro v.
  rewrite (Vector_quaternion_rotate_sandwich v _ U).
  rewrite (Vector_quaternion_rotate_normalized v t t_n Et). cbn [bind].
  rewrite (Vector_quaternion_rotate_normalized _ q q_n Eq).
  now rewrite sandwich_compose.
Qed.

(** [Quaternion.quaternion_rotate] throws exactly when one of the two
    quaternions has magnitude 0; otherwise it returns a unit quaternion
    that composes the two rotations: rotating a vector by it is rotating
    by [this] first and by [q] second. *)
Theorem quaternion_quaternion_rotate_composes (t q : Quaternion R) :
  (Quaternion_mag t = 0 \/ Quaternion_mag q = 0 ->
   Quaternion_quaternion_rotate t q = Throw "Cannot divide by 0.")
  /\ (Quaternion_mag t <> 0 /\ Quaternion_mag q <> 0 ->
      exists r : Quaternion R,
        Quaternion_quaternion_rotate t q = Ok r
        /\ Quaternion_mag r = 1
        /\ forall v : Vector R,
             Vector_quaternion_rotate v r
             = (w <- Vector_quaternion_rotate v t ;;
                Vector_quaternion_rotate w q)).
Proof.
  split.
  - intro H. unfold Quaternion_quaternion_rotate.
    destruct (Req_dec_T (Quaternion_mag q) 0) as [Zq|NZq].
    + unfold Quaternion_normalize at 1, Quaternion_div. rewrite Zq. cbn.
      now rewrite R_loose_eq_refl.
    + destruct H as [Zt|Zq]; [|contradiction].
      rewrite (Quaternion_normalize_R q NZq). cbn [bind].
      unfold Quaternion_normalize, Quaternion_div. rewrite Zt. cbn.
      now rewrite R_loose_eq_refl.
  - intros [Ht Hq].
    destruct (Quaternion_quaternion_rotate_acts t q Ht Hq) as [r [E [U A]]].
    exists r. split; [exact E|]. split; [now apply Quaternion_mag_unit|].
    exact A.
Qed.

Lemma quaternion_quaternion_rotate_composes_witness :
  Quaternion_quaternion_rotate (mkQuaternion 2 0 0 0) (mkQuaternion 0 0 0 0)
  = Throw "Cannot divide by 0."
  /\ exists r : Quaternion R,
       Quaternion_quaternion_rotate (mkQuaternion 2 0 0 0)
                                    (mkQuaternion 2 0 0 0) = Ok r
       /\ Quaternion_mag r = 1
       /\ forall v : Vector R,
            Vector_quaternion_rotate v r
            = (w <- Vector_quaternion_rotate v (mkQuaternion 2 0 0 0) ;;
               Vector_quaternion_rotate w (mkQuaternion 2 0 0 0)).
Proof.
  split.
  - apply (proj1 (quaternion_quaternion_rotate_composes
                    (mkQuaternion 2 0 0 0) (mkQuaternion 0 0 0 0))).
    right. exact mag_0000.
  - apply (proj2 (quaternion_quaternion_rotate_composes
                    (mkQuaternion 2 0 0 0) (mkQuaternion 2 0 0 0))).
    split; exact sqnorm_2000.
Defined.

(** ** Axis-angle rotation *)

Lemma Quaternion_from_axis_rotation_ok_unit
    (axis : Vector R) (angle : R) (q : Quaternion R) :
  Quaternion_from_axis_rotation axis angle = Ok q -> sqnorm q = 1.
Proof.
  rewrite Quaternion_from_axis_rotation_R.
  apply Quaternion_normalize_ok_sqnorm.
Qed.

Lemma Vector_rotate_axis_nonzero (v axis : Vector R) (angle : R) :
  Vector_mag axis <> 0 ->
  Vector_rotate_axis v axis angle
  = Ok (sandwich (axis_rotation_raw axis angle) v).
Proof.
  intro H.
  rewrite (Vector_rotate_axis_unfold _ _ _ _
             (Quaternion_from_axis_rotation_nonzero axis angle H)).
  now apply Vector_quaternion_rotate_sandwich, sqnorm_axis_rotation_raw.
Qed.

Lemma Vector_rotate_axis_ok (v w axis : Vector R) (angle : R) :
  Vector_rotate_axis v axis angle = Ok w ->
  exists q, sqnorm q = 1 /\ w = sandwich q v
            /\ Quaternion_from_axis_rotation axis angle = Ok q.
Proof.
  unfold Vector_rotate_axis, Vector_q_rotate.
  destruct (Quaternion_from_axis_rotation axis angle) as [q|m] eqn:E;
    cbn [bind]; [|discriminate].
  pose proof (Quaternion_from_axis_rotation_ok_unit _ _ _ E) as U.
  rewrite (Vector_quaternion_rotate_sandwich v q U).
  intro H. injection H as <-. now exists q.
Qed.

(** [rotate_axis] returns whenever the axis is not zero or the half-angle
    cosine is not zero, and whatever it returns has the magnitude of the
    original; two vectors rotated about the same axis by the same angle
    keep their dot product. *)
Theorem vector_rotate_axis_isometry
    (u v axis : Vector R) (angle : R) :
  (Vector_mag axis <> 0 \/ cos (angle / 2) <> 0 ->
   exists v' : Vector R, Vector_rotate_axis v axis angle = Ok v')
  /\ (forall u' v' : Vector R,
         Vector_rotate_axis u axis angle = Ok u' ->
         Vector_rotate_axis v axis angle = Ok v' ->
         Vector_mag v' = Vector_mag v /\ Vector_dot u' v' = Vector_dot u v).
Proof.
  split.
  - intros [H|H].
    + eexists. now apply Vector_rotate_axis_nonzero.
    + now apply Vector_rotate_axis_defined.
  - intros u' v' Hu Hv.
    destruct (Vector_rotate_axis_ok _ _ _ _ Hu) as [q [U [-> E]]].
    destruct (Vector_rotate_axis_ok _ _ _ _ Hv) as [q' [_ [-> E']]].
    rewrite E in E'. injection E' as <-.
    split; [now apply sandwich_mag|]. rewrite sandwich_dot, U. ring.
Qed.

Lemma vector_rotate_axis_isometry_witness :
  exists v' : Vector R,
    Vector_rotate_axis (mkVector 1 2 3) (mkVector 0 0 1) PI = Ok v'
    /\ Vector_mag v' = Vector_mag (mkVector 1 2 3).
Proof.
  destruct (proj1 (vector_rotate_axis_isometry (mkVector 1 2 3)
                     (mkVector 1 2 3) (mkVector 0 0 1) PI)
              (or_introl mag_unit_z)) as [v' Hv].
  exists v'. split; [exact Hv|].
  exact (proj1 (proj2 (vector_rotate_axis_isometry (mkVector 1 2 3)
                         (mkVector 1 2 3) (mkVector 0 0 1) PI) v' v' Hv Hv)).
Defined.

Lemma Vector_norm_scale_back (v : Vector R) :
  Vector_mag v <> 0 ->
  v = Vector_mul (Vector_norm v) (inl (Vector_mag v)).
Proof.
  intro H. rewrite Vector_mul_scalar_R, (Vector_norm_R_nonzero v H).
  cbn [v_x v_y v_z]. apply Vector_ext; cbn [v_x v_y v_z]; now field.
Qed.

Lemma sandwich_axis (c s m : R) (n : Vector R) :
  sandwich (mkQuaternion c (v_x n * s) (v_y n * s) (v_z n * s))
           (Vector_mul n (inl m))
  = Vector_mul (Vector_mul n (inl m))
      (inl (c * c + s * s * (v_x n * v_x n + v_y n * v_y n + v_z n * v_z n))).
Proof.
  rewrite !Vector_mul_scalar_R. unfold sandwich; cbn.
  apply Vector_ext; cbn; ring.
Qed.

(** A rotation about a nonzero axis leaves the axis, and every multiple
    of it, where it is. *)
Theorem vector_rotate_axis_fixes_axis (axis : Vector R) (angle c : R) :
  Vector_mag axis <> 0 ->
  Vector_rotate_axis axis axis angle = Ok axis
  /\ Vector_rotate_axis (Vector_mul axis (inl c)) axis angle
     = Ok (Vector_mul axis (inl c)).
Proof.
  intro H.
  assert (G : forall m : R,
             sandwich (axis_rotation_raw axis angle)
                      (Vector_mul (Vector_norm axis) (inl m))
             = Vector_mul (Vector_norm axis) (inl m)).
  { intro m. unfold axis_rotation_raw. rewrite sandwich_axis.
    rewrite (Vector_norm_unit axis H), Rmult_1_r, sin_cos_squares.
    rewrite !Vector_mul_scalar_R. cbn [v_x v_y v_z].
    apply Vector_ext; cbn [v_x v_y v_z]; lra. }
  rewrite !(Vector_rotate_axis_nonzero _ axis angle H). split; f_equal.
  - rewrite (Vector_norm_scale_back axis H) at 2 3. apply G.
  - replace (Vector_mul axis (inl c))
      with (Vector_mul (Vector_norm axis) (inl (Vector_mag axis * c))).
    + apply G.
    + rewrite !Vector_mul_scalar_R, (Vector_norm_R_nonzero axis H).
      cbn [v_x v_y v_z]. apply Vector_ext; cbn [v_x v_y v_z]; now field.
Qed.

Lemma vector_rotate_axis_fixes_axis_witness :
  Vector_rotate_axis (mkVector 0 0 1) (mkVector 0 0 1) (PI / 3)
  = Ok (mkVector 0 0 1).
Proof.
  apply (proj1 (vector_rotate_axis_fixes_axis (mkVector 0 0 1) (PI / 3) 2
                  mag_unit_z)).
Defined.

Lemma axis_rotation_raw_plus (axis : Vector R) (a b : R) :
  Vector_mag axis <> 0 ->
  axis_rotation_raw axis (a + b)
  = Quaternion_quaternion_multiply (axis_rotation_raw axis b)
                                   (axis_rotation_raw axis a).
Proof.
  intro H. pose proof (Vector_norm_unit axis H) as U.
  unfold axis_rotation_raw.
  replace ((a + b) / 2) with (a / 2 + b / 2) by field.
  rewrite cos_plus, sin_plus.
  set (n := Vector_norm axis) in *.
  set (ca := cos (a / 2)). set (sa := sin (a / 2)).
  set (cb := cos (b / 2)). set (sb := sin (b / 2)).
  apply Quaternion_ext; cbn; try ring.
  transitivity (ca * cb - sa * sb * (v_x n * v_x n + v_y n * v_y n
                                     + v_z n * v_z n)); [|ring].
  rewrite U. ring.
Qed.

(** Rotations about one nonzero axis add their angles: rotating by
    [a] and then by [b] is rotating by [a + b]. *)
Theorem vector_rotate_axis_adds_angles (v axis : Vector R) (a b : R) :
  Vector_mag axis <> 0 ->
  exists w : Vector R,
    Vector_rotate_axis v axis a = Ok w
    /\ Vector_rotate_axis w axis b = Vector_rotate_axis v axis (a + b).
Proof.
  intro H. eexists. split; [now apply Vector_rotate_axis_nonzero|].
  rewrite !(Vector_rotate_axis_nonzero _ axis _ H).
  now rewrite sandwich_compose, axis_rotation_raw_plus.
Qed.

Lemma vector_rotate_axis_adds_angles_witness :
  exists w : Vector R,
    Vector_rotate_axis (mkVector 1 2 3) (mkVector 0 0 1) 1 = Ok w
    /\ Vector_rotate_axis w (mkVector 0 0 1) 2
       = Vector_rotate_axis (mkVector 1 2 3) (mkVector 0 0 1) (1 + 2).
Proof.
  apply (vector_rotate_axis_adds_angles (mkVector 1 2 3) (mkVector 0 0 1) 1 2
           mag_unit_z).
Defined.

Lemma sandwich_real_unit (a i j k : R) (v : Vector R) :
  a * a = 1 -> i = 0 -> j = 0 -> k = 0 ->
  sandwich (mkQuaternion a i j k) v = v.
Proof.
  intros A -> -> ->. unfold sandwich; cbn. destruct v as [x y z]; cbn.
  apply Vector_ext; cbn.
  - transitivity (a * a * x); [ring | rewrite A; ring].
  - transitivity (a * a * y); [ring | rewrite A; ring].
  - transitivity (a * a * z); [ring | rewrite A; ring].
Qed.

(** About any axis, the zero vector included: the angle [0] gives the
    identity quaternion and a full turn [2 * PI] its negation, and the
    rotation by either returns the vector unchanged. *)
Theorem rotation_trivial_angles (v axis : Vector R) :
  Quaternion_from_axis_rotation axis 0 = Ok identity_quaternion
  /\ Quaternion_from_axis_rotation axis (2 * PI) = Ok (mkQuaternion (-1) 0 0 0)
  /\ Vector_rotate_axis v axis 0 = Ok v
  /\ Vector_rotate_axis v axis (2 * PI) = Ok v.
Proof.
  assert (Q : forall (angle a : R),
             cos (angle / 2) = a -> a * a = 1 -> sin (angle / 2) = 0 ->
             Quaternion_from_axis_rotation axis angle
             = Ok (mkQuaternion a 0 0 0)).
  { intros angle a C A S. rewrite Quaternion_from_axis_rotation_R.
    unfold axis_rotation_raw. rewrite C, S.
    rewrite Quaternion_normalize_unit
      by (unfold sqnorm; cbn [q_a q_i q_j q_k]; rewrite <- A; ring).
    f_equal. apply Quaternion_ext; cbn; ring. }
  assert (V : forall (angle a : R),
             cos (angle / 2) = a -> a * a = 1 -> sin (angle / 2) = 0 ->
             Vector_rotate_axis v axis angle = Ok v).
  { intros angle a C A S.
    rewrite (Vector_rotate_axis_unfold v axis angle _ (Q angle a C A S)).
    rewrite Vector_quaternion_rotate_sandwich
      by (unfold sqnorm; cbn [q_a q_i q_j q_k]; rewrite <- A; ring).
    f_equal. now apply sandwich_real_unit. }
  assert (C0 : cos (0 / 2) = 1)
    by (replace (0 / 2) with 0 by field; apply cos_0).
  assert (S0 : sin (0 / 2) = 0)
    by (replace (0 / 2) with 0 by field; apply sin_0).
  assert (C2 : cos (2 * PI / 2) = -1)
    by (replace (2 * PI / 2) with PI by field; apply cos_PI).
  assert (S2 : sin (2 * PI / 2) = 0)
    by (replace (2 * PI / 2) with PI by field; apply sin_PI).
  split; [|split; [|split]].
  - apply (Q 0 1 C0); [ring | exact S0].
  - apply (Q (2 * PI) (-1) C2); [ring | exact S2].
  - apply (V 0 1 C0); [ring | exact S0].
  - apply (V (2 * PI) (-1) C2); [ring | exact S2].
Qed.

Lemma half_angle (theta : R) :
  cos theta = cos (theta / 2) * cos (theta / 2)
              - sin (theta / 2) * sin (theta / 2)
  /\ sin theta = 2 * sin (theta / 2) * cos (theta / 2).
Proof.
  pose proof (cos_2a (theta / 2)) as C. pose proof (sin_2a (theta / 2)) as S.
  replace (2 * (theta / 2)) with theta in C, S by field.
  now split.
Qed.

Lemma mag_basis (x y z : R) :
  x * x + y * y + z * z = 1 -> Vector_mag (mkVector x y z) = 1.
Proof. intro H. rewrite Vector_mag_R; cbn [v_x v_y v_z]. rewrite H. apply sqrt_1. Qed.

Lemma Vector_rotate_axis_unit (v : Vector R) (x y z angle : R) :
  x * x + y * y + z * z = 1 ->
  Vector_rotate_axis v (Vector_new x y z) angle
  = Ok (sandwich (mkQuaternion (cos (angle / 2)) (x * sin (angle / 2))
                               (y * sin (angle / 2)) (z * sin (angle / 2))) v).
Proof.
  intro H. rewrite Vector_new_R. pose proof (mag_basis x y z H) as M.
  rewrite Vector_rotate_axis_nonzero by (rewrite M; lra).
  unfold axis_rotation_raw. now rewrite (Vector_norm_of_unit _ M).
Qed.

(** [rotate_x], [rotate_y] and [rotate_z] are the rotations by the angle
    about the coordinate axes, counter-clockwise for an observer the axis
    points at: the coordinate along the axis is kept and the other two
    turn by the angle. *)
Theorem vector_rotate_xyz_formulas (v : Vector R) (theta : R) :
  Vector_rotate_x v theta
  = Ok (mkVector (v_x v)
                 (v_y v * cos theta - v_z v * sin theta)
                 (v_y v * sin theta + v_z v * cos theta))
  /\ Vector_rotate_y v theta
     = Ok (mkVector (v_x v * cos theta + v_z v * sin theta)
                    (v_y v)
                    (- v_x v * sin theta + v_z v * cos theta))
  /\ Vector_rotate_z v theta
     = Ok (mkVector (v_x v * cos theta - v_y v * sin theta)
                    (v_x v * sin theta + v_y v * cos theta)
                    (v_z v)).
Proof.
  destruct (half_angle theta) as [C S].
  pose proof (sin_cos_squares (theta / 2)) as U.
  unfold Vector_rotate_x, Vector_rotate_y, Vector_rotate_z.
  rewrite !Vector_rotate_axis_unit by (cbn; ring).
  rewrite C, S. set (c := cos (theta / 2)) in *. set (s := sin (theta / 2)) in *.
  destruct v as [x y z]. unfold sandwich. cbn.
  repeat split; f_equal; apply Vector_ext; cbn; try ring.
  - transitivity ((c * c + s * s) * x); [ring | rewrite U; ring].
  - transitivity ((c * c + s * s) * y); [ring | rewrite U; ring].
  - transitivity ((c * c + s * s) * z); [ring | rewrite U; ring].
Qed.

(** ** [Quaternion.from_axis_rotation] with a nonzero axis *)

(** With an axis of nonzero magnitude [from_axis_rotation] never throws:
    it returns [(cos(angle/2), sin(angle/2) * axis / |axis|)], of
    magnitude 1 (the final [normalize()] changes nothing); the axis may be
    scaled by any positive number; and the opposite angle gives the
    conjugate. *)
Theorem from_axis_rotation_nonzero_axis (axis : Vector R) (angle c : R) :
  Vector_mag axis <> 0 ->
  let q := mkQuaternion (cos (angle / 2))
             (v_x axis / Vector_mag axis * sin (angle / 2))
             (v_y axis / Vector_mag axis * sin (angle / 2))
             (v_z axis / Vector_mag axis * sin (angle / 2)) in
  Quaternion_from_axis_rotation axis angle = Ok q
  /\ Quaternion_mag q = 1
  /\ (0 < c ->
      Quaternion_from_axis_rotation (Vector_mul axis (inl c)) angle = Ok q)
  /\ Quaternion_from_axis_rotation axis (- angle)
     = Ok (Quaternion_conjugate q).
Proof.
  intros H q.
  assert (E : axis_rotation_raw axis angle = q).
  { unfold axis_rotation_raw. now rewrite (Vector_norm_R_nonzero axis H). }
  pose proof (Quaternion_from_axis_rotation_nonzero axis angle H) as F.
  pose proof (sqnorm_axis_rotation_raw axis angle H) as U.
  rewrite E in F, U.
  split; [exact F|]. split; [now apply Quaternion_mag_unit|]. split.
  - intro C. rewrite Quaternion_from_axis_rotation_R.
    unfold axis_rotation_raw. rewrite (Vector_norm_mul_positive axis c C).
    fold (axis_rotation_raw axis angle). rewrite E.
    now apply Quaternion_normalize_unit.
  - rewrite (Quaternion_from_axis_rotation_nonzero axis (- angle) H).
    now rewrite axis_rotation_raw_opp, E.
Qed.

Lemma from_axis_rotation_nonzero_axis_witness :
  exists q : Quaternion R,
    Quaternion_from_axis_rotation (mkVector 0 0 1) PI = Ok q
    /\ Quaternion_mag q = 1.
Proof.
  eexists.
  pose proof (from_axis_rotation_nonzero_axis (mkVector 0 0 1) PI 1
                mag_unit_z) as W.
  cbv zeta in W. split; [exact (proj1 W) | exact (proj1 (proj2 W))].
Defined.

(** ** [Quaternion.rotate_axis] and its coordinate-axis variants *)

Lemma Quaternion_rotate_axis_acts
    (t q : Quaternion R) (axis : Vector R) (angle : R) :
  Quaternion_mag t <> 0 ->
  Quaternion_from_axis_rotation axis angle = Ok q ->
  exists r : Quaternion R,
    Quaternion_rotate_axis t axis angle = Ok r
    /\ Quaternion_mag r = 1
    /\ forall v : Vector R,
         Vector_quaternion_rotate v r
         = (w <- Vector_quaternion_rotate v t ;;
            Vector_rotate_axis w axis angle).
Proof.
  intros Ht Hq.
  pose proof (Quaternion_from_axis_rotation_ok_unit _ _ _ Hq) as U.
  assert (Mq : Quaternion_mag q <> 0)
    by (rewrite (Quaternion_mag_unit q U); lra).
  destruct (Quaternion_quaternion_rotate_acts t q Ht Mq) as [r [E [Ur A]]].
  exists r. split; [|split].
  - unfold Quaternion_rotate_axis. now rewrite Hq.
  - now apply Quaternion_mag_unit.
  - intro v. rewrite A.
    destruct (Vector_quaternion_rotate v t); cbn [bind]; [|reflexivity].
    symmetry. now apply Vector_rotate_axis_unfold.
Qed.

(** [Quaternion.rotate_axis] appends an axis-angle rotation to the
    rotation of [this]: the unit quaternion it returns rotates a vector as
    [this] does, followed by [Vector.rotate_axis] about the axis.  It
    returns whenever [this] has nonzero magnitude and the axis is not
    zero or the half-angle cosine is not zero. *)
Theorem quaternion_rotate_axis_composes
    (t : Quaternion R) (axis : Vector R) (angle : R) :
  Quaternion_mag t <> 0 ->
  Vector_mag axis <> 0 \/ cos (angle / 2) <> 0 ->
  exists r : Quaternion R,
    Quaternion_rotate_axis t axis angle = Ok r
    /\ Quaternion_mag r = 1
    /\ forall v : Vector R,
         Vector_quaternion_rotate v r
         = (w <- Vector_quaternion_rotate v t ;;
            Vector_rotate_axis w axis angle).
Proof.
  intros Ht [H|H].
  - exact (Quaternion_rotate_axis_acts t _ axis angle Ht
             (Quaternion_from_axis_rotation_nonzero axis angle H)).
  - destruct (Quaternion_from_axis_rotation_defined axis angle H)
      as [q [Hq _]].
    exact (Quaternion_rotate_axis_acts t q axis angle Ht Hq).
Qed.

Lemma quaternion_rotate_axis_composes_witness :
  exists r : Quaternion R,
    Quaternion_rotate_axis (mkQuaternion 2 0 0 0) (mkVector 0 0 1) PI = Ok r
    /\ Quaternion_mag r = 1
    /\ forall v : Vector R,
         Vector_quaternion_rotate v r
         = (w <- Vector_quaternion_rotate v (mkQuaternion 2 0 0 0) ;;
            Vector_rotate_axis w (mkVector 0 0 1) PI).
Proof.
  apply (quaternion_rotate_axis_composes (mkQuaternion 2 0 0 0)
           (mkVector 0 0 1) PI sqnorm_2000).
  left. exact mag_unit_z.
Defined.

Lemma Vector_new_basis_mag (x y z : R) :
  x * x + y * y + z * z = 1 -> Vector_mag (Vector_new x y z) <> 0.
Proof. intro H. rewrite Vector_new_R, (mag_basis x y z H). lra. Qed.

(** [Quaternion.rotate_x], [rotate_y] and [rotate_z] append the rotation
    about the coordinate axis: the result rotates a vector as [this] does,
    followed by [Vector.rotate_x], [rotate_y] or [rotate_z]. *)
Theorem quaternion_rotate_xyz_compose (t : Quaternion R) (a : R) :
  Quaternion_mag t <> 0 ->
  (exists r : Quaternion R,
      Quaternion_rotate_x t a = Ok r
      /\ forall v : Vector R,
           Vector_quaternion_rotate v r
           = (w <- Vector_quaternion_rotate v t ;; Vector_rotate_x w a))
  /\ (exists r : Quaternion R,
         Quaternion_rotate_y t a = Ok r
         /\ forall v : Vector R,
              Vector_quaternion_rotate v r
              = (w <- Vector_quaternion_rotate v t ;; Vector_rotate_y w a))
  /\ (exists r : Quaternion R,
         Quaternion_rotate_z t a = Ok r
         /\ forall v : Vector R,
              Vector_quaternion_rotate v r
              = (w <- Vector_quaternion_rotate v t ;; Vector_rotate_z w a)).
Proof.
  intro Ht.
  unfold Quaternion_rotate_x, Quaternion_rotate_y, Quaternion_rotate_z,
    Vector_rotate_x, Vector_rotate_y, Vector_rotate_z.
  split; [|split].
  - destruct (Quaternion_rotate_axis_acts t _ (Vector_new n1 n0 n0) a Ht
                (Quaternion_from_axis_rotation_nonzero _ a
                   (Vector_new_basis_mag 1 0 0 ltac:(ring))))
      as [r [E [_ A]]].
    now exists r.
  - destruct (Quaternion_rotate_axis_acts t _ (Vector_new n0 n1 n0) a Ht
                (Quaternion_from_axis_rotation_nonzero _ a
                   (Vector_new_basis_mag 0 1 0 ltac:(ring))))
      as [r [E [_ A]]].
    now exists r.
  - destruct (Quaternion_rotate_axis_acts t _ (Vector_new n0 n0 n1) a Ht
                (Quaternion_from_axis_rotation_nonzero _ a
                   (Vector_new_basis_mag 0 0 1 ltac:(ring))))
      as [r [E [_ A]]].
    now exists r.
Qed.

Lemma quaternion_rotate_xyz_compose_witness :
  exists r : Quaternion R,
    Quaternion_rotate_z (mkQuaternion 2 0 0 0) PI = Ok r
    /\ forall v : Vector R,
         Vector_quaternion_rotate v r
         = (w <- Vector_quaternion_rotate v (mkQuaternion 2 0 0 0) ;;
            Vector_rotate_z w PI).
Proof.
  exact (proj2 (proj2 (quaternion_rotate_xyz_compose (mkQuaternion 2 0 0 0)
                         PI sqnorm_2000))).
Defined.

(** ** [Vector.transform] and [Quaternion.get_rotation_matrix] *)

Lemma Vector_transform_short {num : Type} {N : Number num} {U : NaNValue num}
    (v : Vector num) (M : list (list num)) :
  (length M < 3)%nat -> Vector_transform v M = Throw "TypeError".
Proof.
  intro H. unfold Vector_transform, matrix_row.
  destruct M as [|r0 [|r1 [|r2 M]]]; cbn in *; try reflexivity.
  exfalso. do 3 apply PeanoNat.lt_S_n in H. now apply PeanoNat.Nat.nlt_0_r in H.
Qed.

Lemma Vector_transform_rows {num : Type} {N : Number num} {U : NaNValue num}
    (v : Vector num) (r0 r1 r2 : list num) (M : list (list num)) :
  Vector_transform v (r0 :: r1 :: r2 :: M)
  = Ok (Vector_new (transform_row v r0) (transform_row v r1)
                   (transform_row v r2)).
Proof. reflexivity. Qed.

(** [transform] throws a [TypeError] exactly when the matrix has fewer
    than three rows, on every kind of number; rows beyond the third are
    ignored, and so are entries beyond the fourth of a row. *)
Theorem vector_transform_throws_iff_short :
  forall (num : Type) (N : Number num) (U : NaNValue num)
         (v : Vector num) (M : list (list num)),
    (throws (Vector_transform v M) <-> (length M < 3)%nat)
    /\ ((length M < 3)%nat -> Vector_transform v M = Throw "TypeError")
    /\ (forall (r1 r2 : list num) (a b c t : num)
               (more : list num) (rest : list (list num)),
           Vector_transform v ((a :: b :: c :: t :: more) :: r1 :: r2 :: rest)
           = Vector_transform v ((a :: b :: c :: t :: nil) :: r1 :: r2 :: nil)).
Proof.
  intros num N U v M. split; [split|split].
  - intros [m H].
    destruct M as [|r0 [|r1 [|r2 M]]]; cbn;
      try (repeat constructor; fail).
    rewrite Vector_transform_rows in H. discriminate.
  - intro H. rewrite (Vector_transform_short v M H). now eexists.
  - apply Vector_transform_short.
  - reflexivity.
Qed.

Lemma vector_transform_throws_iff_short_witness :
  (Vector_transform (mkVector 1 2 3) ((1 :: 0 :: 0 :: nil) :: nil)
   = Throw "TypeError")%float.
Proof.
  apply (proj1 (proj2 (vector_transform_throws_iff_short float _ _
                         (mkVector 1 2 3) ((1 :: 0 :: 0 :: nil) :: nil))%float)).
  cbn. repeat constructor.
Defined.

Lemma transform_row_3 (U : NaNValue R) (v : Vector R) (a b c : R) :
  transform_row v (a :: b :: c :: nil)
  = v_x v * a + v_y v * b + v_z v * c + 0.
Proof. reflexivity. Qed.

Lemma transform_row_4 (U : NaNValue R) (v : Vector R) (a b c t : R) :
  transform_row v (a :: b :: c :: t :: nil)
  = v_x v * a + v_y v * b + v_z v * c + t.
Proof. unfold transform_row. cbn [nth_error to_number]. now rewrite or_zero_R. Qed.

(** Over the reals, with three rows of three entries [transform] is the
    linear map of the matrix: it commutes with [add] and with scaling,
    and the identity matrix changes nothing.  A fourth entry in each row
    is a translation added to the linear part. *)
Theorem vector_transform_linear_affine
    (U : NaNValue R) (u v : Vector R) (k : R)
    (a1 b1 c1 t1 a2 b2 c2 t2 a3 b3 c3 t3 : R) :
  let M := (a1 :: b1 :: c1 :: nil) :: (a2 :: b2 :: c2 :: nil)
           :: (a3 :: b3 :: c3 :: nil) :: nil in
  let M' := (a1 :: b1 :: c1 :: t1 :: nil) :: (a2 :: b2 :: c2 :: t2 :: nil)
            :: (a3 :: b3 :: c3 :: t3 :: nil) :: nil in
  let L := fun w : Vector R =>
             mkVector (v_x w * a1 + v_y w * b1 + v_z w * c1)
                      (v_x w * a2 + v_y w * b2 + v_z w * c2)
                      (v_x w * a3 + v_y w * b3 + v_z w * c3) in
  Vector_transform v M = Ok (L v)
  /\ Vector_transform (Vector_add u v) M = Ok (Vector_add (L u) (L v))
  /\ Vector_transform (Vector_mul v (inl k)) M = Ok (Vector_mul (L v) (inl k))
  /\ Vector_transform v M' = Ok (Vector_add (L v) (mkVector t1 t2 t3))
  /\ Vector_transform v
       ((1 :: 0 :: 0 :: nil) :: (0 :: 1 :: 0 :: nil) :: (0 :: 0 :: 1 :: nil)
        :: nil) = Ok v.
Proof.
  intros M M' L. unfold M, M', L.
  rewrite !Vector_transform_rows, !transform_row_3, !transform_row_4.
  rewrite !Vector_new_R, !Vector_add_R, !Vector_mul_scalar_R.
  cbn [v_x v_y v_z].
  repeat split; f_equal; apply Vector_ext; cbn [v_x v_y v_z]; ring.
Qed.

Lemma Vector_transform_rotation_matrix
    (U : NaNValue R) (v : Vector R) (q : Quaternion R) :
  Vector_transform v (Quaternion_get_rotation_matrix q) = Ok (sandwich q v).
Proof.
  unfold Quaternion_get_rotation_matrix. cbv zeta.
  rewrite Vector_transform_rows, !transform_row_3, Vector_new_R.
  f_equal. unfold sandwich. apply Vector_ext; cbn; ring.
Qed.

Lemma sandwich_scale_quaternion (q : Quaternion R) (c : R) (v : Vector R) :
  sandwich (Quaternion_mul q c) v = Vector_mul (sandwich q v) (inl (c * c)).
Proof.
  rewrite Vector_mul_scalar_R. unfold sandwich. apply Vector_ext; cbn; ring.
Qed.

Lemma Quaternion_normalize_scale_back (q q_n : Quaternion R) :
  Quaternion_normalize q = Ok q_n -> q = Quaternion_mul q_n (Quaternion_mag q).
Proof.
  intro H. pose proof (Quaternion_normalize_ok_mag q q_n H) as M.
  rewrite Quaternion_normalize_R in H by exact M. injection H as <-.
  set (m := Quaternion_mag q) in *.
  apply Quaternion_ext; cbn; field; exact M.
Qed.

(** The matrix of [get_rotation_matrix] is the rotation of the
    quaternion: for a quaternion of magnitude 1, [transform] by it is
    [quaternion_rotate]; for any other quaternion of nonzero magnitude it
    is that rotation scaled by the squared magnitude. *)
Theorem rotation_matrix_transform_is_rotation
    (U : NaNValue R) (v : Vector R) (q : Quaternion R) :
  (Quaternion_mag q = 1 ->
   Vector_transform v (Quaternion_get_rotation_matrix q)
   = Vector_quaternion_rotate v q)
  /\ (Quaternion_mag q <> 0 ->
      exists w : Vector R,
        Vector_quaternion_rotate v q = Ok w
        /\ Vector_transform v (Quaternion_get_rotation_matrix q)
           = Ok (Vector_mul w (inl (Quaternion_mag q * Quaternion_mag q)))).
Proof.
  rewrite Vector_transform_rotation_matrix. split.
  - intro H. symmetry. apply Vector_quaternion_rotate_sandwich.
    rewrite <- Quaternion_mag_sqr, H. ring.
  - intro H. destruct (Quaternion_normalize_sqnorm q H) as [q_n [Hn _]].
    exists (sandwich q_n v).
    split; [now apply Vector_quaternion_rotate_normalized|].
    rewrite (Quaternion_normalize_scale_back q q_n Hn) at 1.
    now rewrite sandwich_scale_quaternion.
Qed.

Lemma rotation_matrix_transform_is_rotation_witness :
  Vector_transform (U := {| num_NaN := 0 |}) (mkVector 1 2 3)
    (Quaternion_get_rotation_matrix identity_quaternion)
  = Vector_quaternion_rotate (mkVector 1 2 3) identity_quaternion.
Proof.
  apply (proj1 (rotation_matrix_transform_is_rotation
                  {| num_NaN := 0 |} (mkVector 1 2 3) identity_quaternion)).
  apply Quaternion_mag_unit. unfold sqnorm; cbn; ring.
Defined.

(** ** Coordinates returned by [Vector.project_2d] *)

(** The two coordinates [project_2d] returns are the components of the
    in-plane offset [proj] along [y_axis] and along [y_axis] rotated a
    quarter turn about [normal]: multiplied by the magnitude of [y_axis]
    (which the rotated axis shares) they are the dot products of [proj]
    with these two directions. *)
Theorem vector_project_2d_coordinates (this origin normal y_axis : Vector R) :
  let proj := Vector_sub (Vector_planar_project this origin normal) origin in
  exists r w : Vector R,
    Vector_rotate_axis y_axis normal (PI / 2) = Ok r
    /\ Vector_mag r = Vector_mag y_axis
    /\ Vector_project_2d this origin normal y_axis = Ok w
    /\ v_y w * Vector_mag y_axis = Vector_dot proj y_axis
    /\ v_x w * Vector_mag y_axis = Vector_dot proj r.
Proof.
  intro proj.
  destruct (Vector_rotate_axis_defined y_axis normal (PI / 2)
              cos_quarter_turn) as [r Hr].
  destruct (Vector_rotate_axis_ok _ _ _ _ Hr) as [q [U [Er _]]].
  assert (Mr : Vector_mag r = Vector_mag y_axis)
    by (rewrite Er; now apply sandwich_mag).
  exists r. eexists. split; [exact Hr|]. split; [exact Mr|].
  unfold Vector_project_2d. fold proj.
  change (Math_PI / n2)%num with (PI / 2). rewrite Hr. cbn [bind].
  split; [reflexivity|]. rewrite Vector_new_R. cbn [v_x v_y v_z].
  split.
  - rewrite <- (cos_angle_between proj y_axis).
    change (Math_cos ?x) with (cos x). change (?a * ?b)%num with (a * b).
    ring.
  - rewrite <- (cos_angle_between proj r), Mr.
    change (Math_cos ?x) with (cos x). change (?a * ?b)%num with (a * b).
    ring.
Qed.

(** ** The constructors *)

(** The [Vector] constructor throws exactly when it is given a number
    for [x] and no [y]; the [Quaternion] constructor throws exactly when
    it is given a number for [a] and one of [i], [j], [k] is missing.
    Without arguments they build the zero vector and the identity
    quaternion, and a record without [z] gets [z = 0]. *)
Theorem constructors_throw_iff_missing :
  forall (num : Type) (N : Number num),
    (forall (v : option (VectorArg num)) (y z : option num),
        throws (Vector_constructor v y z)
        <-> (exists x : num, v = Some (VNum x)) /\ y = None)
    /\ (forall (qa : option (QuaternionArg num)) (i j k : option num),
           throws (Quaternion_constructor qa i j k)
           <-> (exists a : num, qa = Some (QNum a))
               /\ (i = None \/ j = None \/ k = None))
    /\ Vector_constructor None None None = Ok (mkVector n0 n0 n0)
    /\ Quaternion_constructor None None None None
       = Ok (mkQuaternion n1 n0 n0 n0)
    /\ (forall x y : num,
           Vector_constructor (Some (VLike (mkVectorLike x y None))) None None
           = Ok (mkVector x y n0)
           /\ Vector_constructor (Some (VNum x)) (Some y) None
              = Ok (mkVector x y n0)).
Proof.
  intros num N. split; [|split; [|repeat split]].
  - intros v y z. unfold throws. split.
    + intros [m H]. destruct v as [[l|x]|]; cbn in H; try discriminate.
      destruct y; [discriminate|]. split; [now exists x | reflexivity].
    + intros [[x ->] ->]. cbn. now eexists.
  - intros qa i j k. unfold throws. split.
    + intros [m H]. destruct qa as [[q|a]|]; cbn in H; try discriminate.
      split; [now exists a|].
      destruct i; [|now left]. destruct j; [|now right; left].
      destruct k; [discriminate | now right; right].
    + intros [[a ->] H]. cbn.
      destruct i, j, k; try (now eexists);
        destruct H as [H|[H|H]]; discriminate.
Qed.

(** ** More on [Vector.distance_from_line] *)

Lemma distance_sym (p q : Vector R) : distance p q = distance q p.
Proof. unfold distance. f_equal. ring. Qed.

Lemma Vector_distance_from_line_cross (p a b : Vector R) :
  a <> b ->
  Vector_distance_from_line p a b
  = Vector_mag (Vector_cross (Vector_sub p a) (Vector_sub b a))
    / Vector_mag (Vector_sub b a).
Proof.
  intro H. pose proof (distance_pos a b H) as P.
  rewrite Vector_distance_from_line_R, (Vector_mag_sub_distance b a),
    (distance_sym b a).
  pose proof (distance_sqr a b) as Sd.
  pose proof (distance_sqr p a) as Sa.
  pose proof (distance_sqr p b) as Sb.
  pose proof (Vector_mag_sqr (Vector_cross (Vector_sub p a) (Vector_sub b a)))
    as Sc.
  pose proof (Vector_mag_nonneg (Vector_cross (Vector_sub p a) (Vector_sub b a)))
    as Pc.
  set (mc := Vector_mag (Vector_cross (Vector_sub p a) (Vector_sub b a)))
    in *.
  rewrite Vector_cross_R, !Vector_sub_R in Sc. cbn [v_x v_y v_z] in Sc.
  set (d := distance a b) in *. set (da := distance p a) in *.
  set (db := distance p b) in *.
  assert (K : 4 * (d * d) * (da * da) - (db * db - da * da - d * d) ^ 2
              = 4 * (mc * mc)).
  { rewrite Sa, Sb, Sd, Sc. ring. }
  assert (X : da * da - ((db * db - da * da - d * d) / (-2 * d)) ^ 2
              = (mc / d) ^ 2).
  { apply Rmult_eq_reg_l with (4 * (d * d)); [|nra].
    transitivity (4 * (d * d) * (da * da) - (db * db - da * da - d * d) ^ 2);
      [field; lra|].
    rewrite K. field. lra. }
  rewrite X, Rmax_right by apply pow2_ge_0.
  apply sqrt_pow2. apply Rmult_le_pos; [exact Pc|].
  apply Rlt_le, Rinv_0_lt_compat, P.
Qed.

(** For distinct [a] and [b], [distance_from_line] is the magnitude of
    the cross product of [p - a] and [b - a] over the magnitude of
    [b - a]; it does not depend on the order of [a] and [b]; and it is
    [0] for every point of the line. *)
Theorem distance_from_line_cross_formula (p a b : Vector R) :
  a <> b ->
  Vector_distance_from_line p a b
  = Vector_mag (Vector_cross (Vector_sub p a) (Vector_sub b a))
    / Vector_mag (Vector_sub b a)
  /\ Vector_distance_from_line p a b = Vector_distance_from_line p b a
  /\ forall t : R, Vector_distance_from_line (line_point a b t) a b = 0.
Proof.
  intro H. split; [now apply Vector_distance_from_line_cross|]. split.
  - rewrite !Vector_distance_from_line_R, (distance_sym b a).
    pose proof (distance_pos a b H) as P.
    set (d := distance a b) in *. set (da := distance p a).
    set (db := distance p b).
    f_equal. f_equal. field. lra.
  - intro t. rewrite (Vector_distance_from_line_cross _ a b H).
    replace (Vector_mag (Vector_cross (Vector_sub (line_point a b t) a)
                                      (Vector_sub b a))) with 0.
    + unfold Rdiv. ring.
    + symmetry. apply Vector_mag_zero_iff.
      rewrite Vector_cross_R, !Vector_sub_R. unfold line_point.
      cbn [v_x v_y v_z]. apply Vector_ext; cbn [v_x v_y v_z]; ring.
Qed.

Lemma distance_from_line_cross_formula_witness :
  Vector_distance_from_line
    (line_point (mkVector 0 0 0) (mkVector 1 0 0) 2)
    (mkVector 0 0 0) (mkVector 1 0 0) = 0.
Proof.
  apply (proj2 (proj2 (distance_from_line_cross_formula (mkVector 0 0 1)
                         (mkVector 0 0 0) (mkVector 1 0 0)
                         ltac:(intro E; injection E as E; lra))) 2).
Defined.

(** ** The [z || 0] of the constructor, in binary64 *)

Lemma float_or_zero_not_nan (z : option float) :
  PrimFloat.is_nan (or_zero z) = false.
Proof.
  destruct z as [z|]; [|reflexivity].
  unfold or_zero. cbn [truthy float_Number]. unfold float_truthy.
  destruct (PrimFloat.is_zero z), (PrimFloat.is_nan z) eqn:E; cbn;
    try reflexivity; exact E.
Qed.

Lemma float_or_zero_positive_zero (z : option float) :
  PrimFloat.is_zero (or_zero z) = true -> or_zero z = 0%float.
Proof.
  destruct z as [z|]; [|reflexivity].
  unfold or_zero. cbn [truthy float_Number n0]. unfold float_truthy.
  destruct (PrimFloat.is_zero z) eqn:E; cbn [orb negb]; [reflexivity|].
  destruct (PrimFloat.is_nan z); cbn [orb negb]; [reflexivity|].
  intro H. rewrite E in H. discriminate.
Qed.

(** In binary64 the [z] of a vector is never [NaN] and never the negative
    zero: the constructor stores [z || 0], and every method that returns a
    vector builds it with the constructor.  The other two components are
    stored as given. *)
Theorem binary64_vector_z_never_NaN :
  (forall (v : option (VectorArg float)) (y z : option float)
          (w : Vector float),
      Vector_constructor v y z = Ok w ->
      PrimFloat.is_nan (v_z w) = false
      /\ (PrimFloat.is_zero (v_z w) = true -> v_z w = 0%float))
  /\ (forall (u v : Vector float) (a : float + Vector float),
         PrimFloat.is_nan (v_z (Vector_add u v)) = false
         /\ PrimFloat.is_nan (v_z (Vector_sub u v)) = false
         /\ PrimFloat.is_nan (v_z (Vector_neg v)) = false
         /\ PrimFloat.is_nan (v_z (Vector_mul v a)) = false
         /\ PrimFloat.is_nan (v_z (Vector_norm v)) = false
         /\ PrimFloat.is_nan (v_z (Vector_cross u v)) = false)
  /\ (forall (v w : Vector float) (q : Quaternion float)
             (M : list (list float)),
         (Vector_quaternion_rotate v q = Ok w ->
          PrimFloat.is_nan (v_z w) = false)
         /\ (Vector_transform v M = Ok w ->
             PrimFloat.is_nan (v_z w) = false))
  /\ (Vector_new nan nan nan = mkVector nan nan 0)%float.
Proof.
  split; [|split; [|split]].
  - intros v y z w H.
    destruct v as [[l|x]|]; cbn in H.
    + injection H as <-. cbn [v_z].
      split; [apply float_or_zero_not_nan | apply float_or_zero_positive_zero].
    + destruct y; [|discriminate]. injection H as <-. cbn [v_z].
      split; [apply float_or_zero_not_nan | apply float_or_zero_positive_zero].
    + injection H as <-. cbn. split; reflexivity.
  - intros u v a.
    unfold Vector_sub, Vector_add, Vector_neg, Vector_mul, Vector_norm,
      Vector_cross.
    destruct (Vector_mag v == n0)%num;
      repeat split; apply float_or_zero_not_nan.
  - intros v w q M. split.
    + rewrite Vector_quaternion_rotate_unfold.
      destruct (Quaternion_normalize q); [|discriminate].
      cbv zeta. intro H. injection H as <-. apply float_or_zero_not_nan.
    + unfold Vector_transform, matrix_row.
      destruct M as [|r0 [|r1 [|r2 M]]]; cbn [nth_error bind]; try discriminate.
      intro H. injection H as <-. apply float_or_zero_not_nan.
  - vm_compute. reflexivity.
Qed.

Lemma binary64_vector_z_never_NaN_witness :
  (PrimFloat.is_nan
     (v_z (mkVector 1 2 (or_zero (Some nan)))) = false)%float.
Proof.
  exact (proj1 (proj1 binary64_vector_z_never_NaN
                  (Some (VNum 1%float)) (Some 2%float) (Some nan)
                  (mkVector 1 2 (or_zero (Some nan)))%float eq_refl)).
Defined.

(** ** The componentwise operations of [Quaternion] *)

Lemma Quaternion_mag_mul (q : Quaternion R) (c : R) :
  Quaternion_mag (Quaternion_mul q c) = Rabs c * Quaternion_mag q.
Proof.
  rewrite <- (Rabs_right (Quaternion_mag q))
    by (apply Rle_ge, Quaternion_mag_nonneg).
  rewrite <- Rabs_mult, <- sqrt_Rsqr_abs, Quaternion_mag_R. f_equal.
  unfold Rsqr. pose proof (Quaternion_mag_sqr q) as S.
  transitivity (c * c * sqnorm q); [unfold sqnorm; cbn; ring|].
  rewrite <- S. ring.
Qed.

(** [sub] undoes [add]; [conjugate] is an involution that keeps the
    magnitude; [mul] scales the magnitude by the absolute value of the
    number; [div] undoes [mul] by a nonzero number; [copy] returns an
    equal quaternion. *)
Theorem quaternion_componentwise_operations (p q : Quaternion R) (c : R) :
  Quaternion_sub (Quaternion_add p q) q = p
  /\ Quaternion_conjugate (Quaternion_conjugate q) = q
  /\ Quaternion_mag (Quaternion_conjugate q) = Quaternion_mag q
  /\ Quaternion_mag (Quaternion_mul q c) = Rabs c * Quaternion_mag q
  /\ (c <> 0 -> Quaternion_div (Quaternion_mul q c) c = Ok q)
  /\ Quaternion_copy q = q.
Proof.
  split; [|split; [|split; [|split; [|split]]]].
  - apply Quaternion_ext; cbn; ring.
  - apply Quaternion_ext; cbn; ring.
  - rewrite !Quaternion_mag_R. now rewrite sqnorm_conjugate.
  - apply Quaternion_mag_mul.
  - intro C. rewrite Quaternion_div_ok by now apply R_loose_eq_false.
    f_equal. apply Quaternion_ext; cbn; now field.
  - now destruct q.
Qed.

Lemma quaternion_componentwise_operations_witness :
  Quaternion_div (Quaternion_mul (mkQuaternion 1 2 3 4) 2) 2
  = Ok (mkQuaternion 1 2 3 4).
Proof.
  apply (proj1 (proj2 (proj2 (proj2 (proj2
           (quaternion_componentwise_operations (mkQuaternion 1 2 3 4)
              (mkQuaternion 1 2 3 4) 2)))))).
  lra.
Defined.

(** * The claims on the numbers of the program

    The theorems of this part state what holds of the code on every kind of
    number, binary64 included, and give the laws of exact arithmetic as
    such.  Overflow, rounding and [NaN] make a difference between the
    two. *)

(** ** Order and zeros in binary64 *)

Lemma SFcompare_antisym (x y : spec_float) :
  SFcompare y x = option_map CompOpp (SFcompare x y).
Proof.
  destruct x as [[|]|[|]| |[|] m1 e1], y as [[|]|[|]| |[|] m2 e2];
    try reflexivity; cbn.
  - rewrite (Z.compare_antisym e1 e2).
    destruct (e1 ?= e2)%Z; cbn; try reflexivity.
    now rewrite (Pos.compare_cont_antisym m1 m2 Eq).
  - rewrite (Z.compare_antisym e1 e2).
    destruct (e1 ?= e2)%Z; cbn; try reflexivity.
    now rewrite (Pos.compare_cont_antisym m1 m2 Eq).
Qed.

Lemma float_compare_not_nan (x : float) :
  PrimFloat.is_nan x = false -> SFcompare (Prim2SF x) (Prim2SF x) = Some Eq.
Proof.
  unfold PrimFloat.is_nan. rewrite FloatAxioms.eqb_spec. unfold SFeqb.
  destruct (SFcompare (Prim2SF x) (Prim2SF x)) as [[| |]|]; cbn;
    intro H; try discriminate; reflexivity.
Qed.

Lemma float_compare_total (x y : float) :
  PrimFloat.is_nan x = false -> PrimFloat.is_nan y = false ->
  exists c, SFcompare (Prim2SF x) (Prim2SF y) = Some c.
Proof.
  intros Hx Hy. apply float_compare_not_nan in Hx, Hy.
  destruct (Prim2SF x) as [?|?| |? ? ?], (Prim2SF y) as [?|?| |? ? ?];
    try discriminate; cbn; eexists; reflexivity.
Qed.

(** [Math.max] of two numbers that are not [NaN] is not [NaN] and is at
    least each of them. *)
Lemma float_max_bounds (x y : float) :
  PrimFloat.is_nan x = false -> PrimFloat.is_nan y = false ->
  PrimFloat.leb x (float_max x y) = true
  /\ PrimFloat.leb y (float_max x y) = true
  /\ PrimFloat.is_nan (float_max x y) = false.
Proof.
  intros Hx Hy. unfold float_max. rewrite Hx, Hy. cbn [orb].
  generalize (PrimFloat.get_sign x). intro g.
  destruct (float_compare_total x y Hx Hy) as [c Hc].
  pose proof (SFcompare_antisym (Prim2SF x) (Prim2SF y)) as A.
  rewrite Hc in A. cbn in A.
  pose proof (float_compare_not_nan x Hx) as Rx.
  pose proof (float_compare_not_nan y Hy) as Ry.
  rewrite !FloatAxioms.ltb_spec. unfold SFltb. rewrite Hc, A.
  destruct c; cbn.
  - destruct g; rewrite !FloatAxioms.leb_spec; unfold SFleb;
      rewrite ?Hc, ?A, ?Rx, ?Ry; cbn; auto.
  - rewrite !FloatAxioms.leb_spec; unfold SFleb;
      rewrite ?Hc, ?A, ?Rx, ?Ry; cbn; auto.
  - rewrite !FloatAxioms.leb_spec; unfold SFleb;
      rewrite ?Hc, ?A, ?Rx, ?Ry; cbn; auto.
Qed.

(** [Math.min] of two numbers that are not [NaN] is one of them and at
    most each of them. *)
Lemma float_min_bounds (x y : float) :
  PrimFloat.is_nan x = false -> PrimFloat.is_nan y = false ->
  PrimFloat.leb (float_min x y) x = true
  /\ PrimFloat.leb (float_min x y) y = true
  /\ (float_min x y = x \/ float_min x y = y).
Proof.
  intros Hx Hy. unfold float_min. rewrite Hx, Hy. cbn [orb].
  generalize (PrimFloat.get_sign x). intro g.
  destruct (float_compare_total x y Hx Hy) as [c Hc].
  pose proof (SFcompare_antisym (Prim2SF x) (Prim2SF y)) as A.
  rewrite Hc in A. cbn in A.
  pose proof (float_compare_not_nan x Hx) as Rx.
  pose proof (float_compare_not_nan y Hy) as Ry.
  rewrite !FloatAxioms.ltb_spec. unfold SFltb. rewrite Hc, A.
  destruct c; cbn.
  - destruct g; rewrite !FloatAxioms.leb_spec; unfold SFleb;
      rewrite ?Hc, ?A, ?Rx, ?Ry; cbn; auto.
  - rewrite !FloatAxioms.leb_spec; unfold SFleb;
      rewrite ?Hc, ?A, ?Rx, ?Ry; cbn; auto.
  - rewrite !FloatAxioms.leb_spec; unfold SFleb;
      rewrite ?Hc, ?A, ?Rx, ?Ry; cbn; auto.
Qed.

(** The clamp [Math.min(Math.max(r, -1), 1)]: a value in [[-1, 1]] when
    [r] is not [NaN], and [NaN] when it is. *)
Lemma float_clamp_bounds (r : float) :
  (PrimFloat.is_nan r = false ->
   PrimFloat.leb (-1)%float (float_min (float_max r (-1)) 1) = true
   /\ PrimFloat.leb (float_min (float_max r (-1)) 1) 1%float = true)
  /\ (PrimFloat.is_nan r = true ->
      float_min (float_max r (-1)) 1 = PrimFloat.nan).
Proof.
  split.
  - intro H.
    destruct (float_max_bounds r (-1)%float H eq_refl) as [_ [Lo Nm]].
    destruct (float_min_bounds (float_max r (-1)) 1%float Nm eq_refl)
      as [_ [Hi [E|E]]].
    + split; [now rewrite E | exact Hi].
    + split; [now rewrite E | exact Hi].
  - intro H. unfold float_max. rewrite H. reflexivity.
Qed.


(** ** Rounding never invents a [NaN] *)















(** ** Multiplication by [1] and [-1], and sums with zeros, in binary64 *)








Lemma float_mul_zero_finite (a b : float) :
  PrimFloat.eqb a 0 = true -> PrimFloat.is_finite b = true ->
  PrimFloat.eqb (a * b) 0 = true /\ PrimFloat.eqb (b * a) 0 = true.
Proof.
  unfold PrimFloat.is_finite, PrimFloat.is_infinity, PrimFloat.is_nan.
  intros Ha H. apply negb_true_iff, orb_false_iff in H.
  destruct H as [Hn Hi]. apply negb_false_iff in Hn.
  rewrite FloatAxioms.eqb_spec in Ha, Hn.
  rewrite FloatAxioms.eqb_spec, FloatAxioms.abs_spec in Hi.
  rewrite !FloatAxioms.eqb_spec, !FloatAxioms.mul_spec.
  change (Prim2SF 0) with (S754_zero false) in *.
  destruct (Prim2SF a) as [[|]|[|]| |[|] ? ?],
           (Prim2SF b) as [[|]|[|]| |[|] ? ?];
    cbn in *; try discriminate; split; reflexivity.
Qed.


















(** The table library has the values the assumptions ask for. *)
Lemma table_library_values :
  ecma_library table_library /\ quarter_turn_library table_library
  /\ half_turn_library table_library.
Proof. repeat split; vm_compute; reflexivity. Qed.


(** ** [Vector.quaternion_rotate] and the sandwich product *)

(** On every kind of number, [q.normalize()] is [q] divided by its
    magnitude, and [v.quaternion_rotate(q)] is made of the parts of the
    sandwich product, the last one through [z || 0]. *)
Lemma Vector_quaternion_rotate_parts {num : Type} {N : Number num}
    (v : Vector num) (q : Quaternion num) :
  (quaternion_norm q == n0)%num = false ->
  Quaternion_normalize q = Ok (quaternion_quotient q (quaternion_norm q))
  /\ Vector_quaternion_rotate v q
     = Ok (mkVector
             (q_i (sandwich_product
                     (quaternion_quotient q (quaternion_norm q)) v))
             (q_j (sandwich_product
                     (quaternion_quotient q (quaternion_norm q)) v))
             (or_zero
                (Some (q_k (sandwich_product
                              (quaternion_quotient q (quaternion_norm q))
                              v))))).
Proof.
  intro H.
  assert (E : Quaternion_normalize q
              = Ok (quaternion_quotient q (quaternion_norm q))).
  { unfold Quaternion_normalize, Quaternion_div.
    change (Quaternion_mag q) with (quaternion_norm q). now rewrite H. }
  split; [exact E|].
  unfold Vector_quaternion_rotate. rewrite E. reflexivity.
Qed.


Lemma float_truthy_iff (k : float) :
  float_truthy k = true
  <-> PrimFloat.is_nan k = false /\ PrimFloat.is_zero k = false.
Proof.
  unfold float_truthy. rewrite negb_true_iff, orb_false_iff. tauto.
Qed.

(** C2, with the [z || 0] of the [Vector] constructor.  On every kind of
    number, binary64 included: [v.quaternion_rotate(q)] throws
    "Cannot divide by 0." when [q.mag() == 0]; otherwise [q.normalize()]
    is [q_n], each part of [q] divided by [q.mag()], and the result has
    for [x] and [y] the [i] and [j] parts of the sandwich product
    [(q_n * p) * (q_n.a, -q_n.i, -q_n.j, -q_n.k)], [p = (0, v.x, v.y, v.z)],
    the left product taken first and each product the Hamilton product of
    the specification; its [z] is the [k] part when that is truthy and
    [0] when it is not.  In binary64 the [k] part is truthy unless it is
    a zero or [NaN].  In exact real arithmetic [q_n] has magnitude 1 and
    [z] is the [k] part itself. *)
Theorem vector_quaternion_rotate_sandwich_parts :
  (forall (num : Type) (N : Number num) (v : Vector num) (q : Quaternion num),
      ((quaternion_norm q == n0)%num = true ->
       Vector_quaternion_rotate v q = Throw "Cannot divide by 0.")
      /\ ((quaternion_norm q == n0)%num = false ->
          let q_n := quaternion_quotient q (quaternion_norm q) in
          let s := sandwich_product q_n v in
          Quaternion_normalize q = Ok q_n
          /\ Vector_quaternion_rotate v q
             = Ok (mkVector (q_i s) (q_j s)
                            (if truthy (q_k s) then q_k s else n0))))
  /\ (forall k : float,
         truthy k = true
         <-> PrimFloat.is_nan k = false /\ PrimFloat.is_zero k = false)
  /\ (forall (v : Vector R) (q : Quaternion R),
         quaternion_norm q <> 0 ->
         let q_n := quaternion_quotient q (quaternion_norm q) in
         let s := sandwich_product q_n v in
         quaternion_norm q_n = 1
         /\ Vector_quaternion_rotate v q
            = Ok (mkVector (q_i s) (q_j s) (q_k s))).
Proof.
  split; [|split].
  - intros num N v q. split.
    + intro H. unfold Vector_quaternion_rotate, Quaternion_normalize,
        Quaternion_div.
      change (Quaternion_mag q) with (quaternion_norm q). now rewrite H.
    + intro H. exact (Vector_quaternion_rotate_parts v q H).
  - exact float_truthy_iff.
  - intros v q H q_n s.
    assert (F : (quaternion_norm q == n0)%num = false)
      by now apply R_loose_eq_false.
    destruct (Vector_quaternion_rotate_parts v q F) as [Hn Hr].
    split.
    + destruct (Quaternion_normalize_sqnorm q H) as [q' [Hq' U]].
      rewrite Hn in Hq'. injection Hq' as <-.
      now apply Quaternion_mag_unit.
    + rewrite Hr, or_zero_R. reflexivity.
Qed.

Lemma vector_quaternion_rotate_sandwich_parts_witness :
  (Vector_quaternion_rotate (mkVector 1 2 3) (mkQuaternion 1 1 1 1)
   = Ok (mkVector 3 1 2))%float.
Proof.
  exact (proj2 (proj2 (proj1 vector_quaternion_rotate_sandwich_parts float _
                         (mkVector 1 2 3) (mkQuaternion 1 1 1 1))%float
                 eq_refl)).
Defined.

(** C2, as the specification states it, fails in binary64.  For the
    finite vector [(1.498e308, 1.498e308, 0)] and [q = (0, 1, 1, 0)], of
    magnitude [sqrt 2], the sandwich product is [(NaN, inf, inf, NaN)]
    and the code returns [(inf, inf, 0)]: the [z] returned is [0], the
    [k] part is [NaN]. *)
Lemma vector_quaternion_rotate_not_k_part :
  PrimFloat.is_finite float_1498e305 = true
  /\ (quaternion_norm (mkQuaternion 0 1 1 0) == 0)%float%num = false
  /\ (sandwich_product
        (quaternion_quotient (mkQuaternion 0 1 1 0)
                             (quaternion_norm (mkQuaternion 0 1 1 0)))
        (mkVector float_1498e305 float_1498e305 0)
      = mkQuaternion nan infinity infinity nan)%float
  /\ (Vector_quaternion_rotate (mkVector float_1498e305 float_1498e305 0)
                               (mkQuaternion 0 1 1 0)
      = Ok (mkVector infinity infinity 0))%float
  /\ ~ (forall (v : Vector float) (q : Quaternion float),
           (quaternion_norm q == n0)%num = false ->
           Vector_quaternion_rotate v q
           = Ok (mkVector
                   (q_i (sandwich_product
                           (quaternion_quotient q (quaternion_norm q)) v))
                   (q_j (sandwich_product
                           (quaternion_quotient q (quaternion_norm q)) v))
                   (q_k (sandwich_product
                           (quaternion_quotient q (quaternion_norm q)) v)))).
Proof.
  split; [vm_compute; reflexivity|].
  split; [vm_compute; reflexivity|].
  split; [vm_compute; reflexivity|].
  split; [vm_compute; reflexivity|].
  intro C.
  specialize (C (mkVector float_1498e305 float_1498e305 0%float)
                (mkQuaternion 0 1 1 0)%float eq_refl).
  apply (f_equal (fun r => match r with
                           | Ok w => PrimFloat.is_nan (v_z w)
                           | Throw _ => false
                           end)) in C.
  vm_compute in C. discriminate C.
Qed.

(** ** [Vector.norm], on every kind of number *)






(** ** The zero axis in binary64 *)







(** ** The round trip of [Vector.rotate_axis] *)







(** ** [Quaternion.from_axis_rotation] with the zero axis *)




(** ** [Vector.rotate_axis] about the zero axis *)








(** ** [Vector.angle_between], on every kind of number *)

Lemma Vector_angle_between_parts {num : Type} {N : Number num} {T : Trig num}
    (u v : Vector num) :
  ((euclidean_norm u * euclidean_norm v == n0)%num = true ->
   Vector_angle_between u v = n0)
  /\ ((euclidean_norm u * euclidean_norm v == n0)%num = false ->
      Vector_angle_between u v = Math_acos (clamped_ratio u v)).
Proof.
  unfold Vector_angle_between.
  change (Vector_mag u) with (euclidean_norm u).
  change (Vector_mag v) with (euclidean_norm v).
  split; intros ->; reflexivity.
Qed.

(** Cauchy-Schwarz: in exact arithmetic the ratio lies in [[-1, 1]]. *)
Lemma cosine_ratio_bounds (u v : Vector R) :
  euclidean_norm u <> 0 -> euclidean_norm v <> 0 ->
  -1 <= cosine_ratio u v <= 1.
Proof.
  intros Hu Hv. unfold cosine_ratio.
  change (dot_product u v) with (Vector_dot u v).
  change (euclidean_norm u) with (Vector_mag u) in *.
  change (euclidean_norm v) with (Vector_mag v) in *.
  apply ratio_bounds.
  - apply Vector_cauchy_schwarz.
  - intro E. apply Rmult_integral in E. tauto.
Qed.

(** C8, with the guard as the code computes it.  On every kind of number,
    binary64 included, [u.angle_between(v)] is [0] when the product
    [u.mag() * v.mag()] [== 0], and otherwise [Math.acos] of the ratio of
    the dot product to that product, clamped by [Math.max(., -1)] and
    then [Math.min(., 1)].  In binary64: the result is [0] when one
    magnitude is a zero and the other is finite; the clamped ratio lies
    in [[-1, 1]] when the ratio is not [NaN] and is [NaN] when it is;
    and the clamp does work, since for [(1, 1, 1)] against itself the
    ratio is [1.0000000000000002] and the clamped ratio [1].  In exact
    real arithmetic the result lies in [[0, PI]], is [0] when either
    magnitude is [0], and otherwise is [acos] of the ratio, which then
    lies in [[-1, 1]] without the clamp. *)
Theorem vector_angle_between_clamped_acos :
  (forall (num : Type) (N : Number num) (T : Trig num) (u v : Vector num),
      ((euclidean_norm u * euclidean_norm v == n0)%num = true ->
       Vector_angle_between u v = n0)
      /\ ((euclidean_norm u * euclidean_norm v == n0)%num = false ->
          Vector_angle_between u v = Math_acos (clamped_ratio u v)))
  /\ (forall (T : Trig float) (u v : Vector float),
         (PrimFloat.eqb (euclidean_norm u) 0 = true ->
          PrimFloat.is_finite (euclidean_norm v) = true ->
          Vector_angle_between u v = 0%float
          /\ Vector_angle_between v u = 0%float)
         /\ (PrimFloat.is_nan (cosine_ratio u v) = false ->
             PrimFloat.leb (-1) (clamped_ratio u v) = true
             /\ PrimFloat.leb (clamped_ratio u v) 1 = true)
         /\ (PrimFloat.is_nan (cosine_ratio u v) = true ->
             clamped_ratio u v = PrimFloat.nan))
  /\ (cosine_ratio (mkVector 1 1 1) (mkVector 1 1 1) = 0x1.0000000000001p+0
      /\ clamped_ratio (mkVector 1 1 1) (mkVector 1 1 1) = 1)%float
  /\ (forall u v : Vector R,
         0 <= Vector_angle_between u v <= PI
         /\ (euclidean_norm u = 0 \/ euclidean_norm v = 0 ->
             Vector_angle_between u v = 0)
         /\ (euclidean_norm u <> 0 -> euclidean_norm v <> 0 ->
             Vector_angle_between u v = acos (clamped_ratio u v)
             /\ clamped_ratio u v = cosine_ratio u v
             /\ -1 <= cosine_ratio u v <= 1)).
Proof.
  split; [|split; [|split]].
  - intros num N T u v. apply Vector_angle_between_parts.
  - intros T u v. split; [|split].
    + intros Hu Hv.
      destruct (float_mul_zero_finite _ _ Hu Hv) as [A B].
      split.
      * exact (proj1 (Vector_angle_between_parts u v) A).
      * exact (proj1 (Vector_angle_between_parts v u) B).
    + apply float_clamp_bounds.
    + apply float_clamp_bounds.
  - split; vm_compute; reflexivity.
  - intros u v.
    destruct (Vector_angle_between_exact u v) as [Rg [Z _]].
    split; [exact Rg|]. split; [exact Z|].
    intros Hu Hv.
    pose proof (cosine_ratio_bounds u v Hu Hv) as [Lo Hi].
    assert (C : clamped_ratio u v = cosine_ratio u v).
    { unfold clamped_ratio. cbn [Math_min Math_max R_Number num_neg n1].
      rewrite Rmax_left by exact Lo. now rewrite Rmin_left by exact Hi. }
    split; [|split; [exact C | split; assumption]].
    rewrite (proj2 (Vector_angle_between_parts u v)); [reflexivity|].
    apply R_loose_eq_false. intro E. apply Rmult_integral in E. tauto.
Qed.

Lemma vector_angle_between_clamped_acos_witness :
  (Vector_angle_between (T := table_library) (mkVector 1 1 1) (mkVector 1 1 1)
   = 0)%float.
Proof.
  exact (proj2 (proj1 vector_angle_between_clamped_acos float _ table_library
                  (mkVector 1 1 1) (mkVector 1 1 1))%float eq_refl).
Defined.

(** C8, as the specification states it, fails in binary64.  The finite
    vector [(1e200, 0, 0)] has [mag()] equal to [Infinity]; against
    itself the ratio is [inf / inf], that is [NaN], and against the zero
    vector the guard computes [0 * inf], that is [NaN], which is not
    [== 0]; in both cases [Math.acos] receives [NaN], and returns [NaN]
    as ECMAScript requires: a result outside [[0, PI]], and not [0]
    although one magnitude is [0]. *)
Lemma vector_angle_between_overflow_NaN :
  PrimFloat.is_finite float_1e200 = true
  /\ (euclidean_norm (mkVector float_1e200 0 0) = infinity
      /\ cosine_ratio (mkVector float_1e200 0 0) (mkVector float_1e200 0 0)
         = nan
      /\ euclidean_norm (mkVector 0 0 0) = 0
      /\ euclidean_norm (mkVector 0 0 0)
         * euclidean_norm (mkVector float_1e200 0 0) = nan)%float
  /\ ecma_library table_library
  /\ (forall T : Trig float,
         ecma_library T ->
         (Vector_angle_between (mkVector float_1e200 0 0)
                               (mkVector float_1e200 0 0) = nan
          /\ Vector_angle_between (mkVector 0 0 0)
                                  (mkVector float_1e200 0 0) = nan)%float)
  /\ ~ (forall (T : Trig float) (u v : Vector float),
           ecma_library T ->
           PrimFloat.leb 0 (Vector_angle_between u v) = true
           /\ PrimFloat.leb (Vector_angle_between u v) Math_PI = true)
  /\ ~ (forall (T : Trig float) (u v : Vector float),
           ecma_library T ->
           PrimFloat.eqb (Vector_mag u) 0 = true ->
           Vector_angle_between u v = 0%float).
Proof.
  split; [vm_compute; reflexivity|].
  split; [repeat split; vm_compute; reflexivity|].
  pose proof (proj1 table_library_values) as L.
  split; [exact L|].
  split; [|split].
  2:{ intro C.
      destruct (C table_library (mkVector float_1e200 0 0)%float
                  (mkVector float_1e200 0 0)%float L) as [C0 _].
      vm_compute in C0. discriminate C0. }
  2:{ intro C.
      specialize (C table_library (mkVector 0 0 0)%float
                    (mkVector float_1e200 0 0)%float L eq_refl).
      apply (f_equal PrimFloat.is_nan) in C.
      vm_compute in C. discriminate C. }
  intros T [_ [_ A]]. split.
  - rewrite (proj2 (Vector_angle_between_parts _ _))
      by (vm_compute; reflexivity).
    replace (clamped_ratio _ _) with PrimFloat.nan
      by (vm_compute; reflexivity).
    exact A.
  - rewrite (proj2 (Vector_angle_between_parts _ _))
      by (vm_compute; reflexivity).
    replace (clamped_ratio _ _) with PrimFloat.nan
      by (vm_compute; reflexivity).
    exact A.
Qed.

(** ** [Vector.distance_from_line], on every kind of number *)






